(** * Experience.tsx: steering, camera rig and environment map

    A shallow embedding of [src/components/Experience/Experience.tsx].

    JavaScript numbers are modelled as real numbers: arithmetic is exact, there
    is no rounding, no overflow and no NaN.  [Math.max], [Math.min],
    [Math.acos], [Math.sqrt] and [Math.PI] are [Rmax], [Rmin], [acos], [sqrt]
    and [PI].  The per-frame callbacks registered with [useFrame] are functions
    from the state held in the component's refs to the state after the frame. *)

From Stdlib Require Import Reals Lra List String QArith Qreals.
From stdpp Require Import base gmap sets.
Import ListNotations.

Local Open Scope R_scope.

(** ** JavaScript numbers used as conditions *)

(** [n ? a : b] and [!n] on a number: a number is truthy unless it is zero. *)
Definition truthy (n : R) : bool :=
  if Req_dec_T n 0 then false else true.

(** Degrees, as the specification writes angles. *)
Definition deg (d : R) : R := d * PI / 180.

(** ** THREE.Vector3 and THREE.MathUtils: the operations the file calls *)

Module Vector3.

Record t : Type := mk { x : R; y : R; z : R }.

(** [this.set(x, y, z)] *)
Definition set (_ : t) (x' y' z' : R) : t := mk x' y' z'.

(** [this.copy(v)] *)
Definition copy (_ v : t) : t := v.

(** [this.clone()] *)
Definition clone (v : t) : t := mk (x v) (y v) (z v).

(** [this.setY(y)] *)
Definition setY (v : t) (y' : R) : t := mk (x v) y' (z v).

(** [this.sub(v)] *)
Definition sub (a v : t) : t := mk (x a - x v) (y a - y v) (z a - z v).

(** [this.multiplyScalar(s)] *)
Definition multiplyScalar (v : t) (s : R) : t := mk (x v * s) (y v * s) (z v * s).

(** [this.divideScalar(s)] is [this.multiplyScalar(1 / s)]. *)
Definition divideScalar (v : t) (s : R) : t := multiplyScalar v (1 / s).

(** [this.length()] *)
Definition length (v : t) : R := sqrt (x v * x v + y v * y v + z v * z v).

(** [this.normalize()] is [this.divideScalar(this.length() || 1)]: a vector
    of length zero is divided by 1. *)
Definition normalize (v : t) : t :=
  divideScalar v (if truthy (length v) then length v else 1).

(** [this.dot(v)] *)
Definition dot (a v : t) : R := x a * x v + y a * y v + z a * z v.

(** [this.lerp(v, alpha)]: each component moves by [(v - this) * alpha]. *)
Definition lerp (a v : t) (alpha : R) : t :=
  mk (x a + (x v - x a) * alpha)
     (y a + (y v - y a) * alpha)
     (z a + (z v - z a) * alpha).

(** [this.distanceTo(v)] *)
Definition distanceTo (a v : t) : R := length (sub a v).

End Vector3.

Module MathUtils.

(** [THREE.MathUtils.lerp(x, y, t)] is [(1 - t) * x + t * y]. *)
Definition lerp (x y t : R) : R := (1 - t) * x + t * y.

End MathUtils.

(** ** The piloted object: the part of THREE.Group the controller writes *)

Inductive EulerOrder : Type := XYZ | YXZ | ZXY | ZYX | YZX | XZY.

Record Euler : Type := mkEuler
  { rot_x : R; rot_y : R; rot_z : R; rot_order : EulerOrder }.

Record Group : Type := mkGroup
  { position : Vector3.t; rotation : Euler }.

(** ** SpaceshipController *)

Module SpaceshipController.

(** The refs of the component. *)
Record Refs : Type := mkRefs
  { spaceshipRef : option Group;
    translateY : R;
    translateAcceleration : R;
    angleZ : R;
    angleAcceleration : R;
    pitchAngle : R;
    pitchAcceleration : R }.

(** [useRef(null)] and six times [useRef(0)]. *)
Definition mount : Refs := mkRefs None 0 0 0 0 0 0.

(** [const boundedY = Math.max(-3, Math.min(1, mousePoint.y))] *)
Definition boundedY (mousePoint : Vector3.t) : R :=
  Rmax (-3) (Rmin 1 (Vector3.y mousePoint)).

(** [const targetPitch = mousePoint.z * 0.5] *)
Definition targetPitch (mousePoint : Vector3.t) : R :=
  Vector3.z mousePoint * 0.5.

(** [mousePoint.clone().sub(new THREE.Vector3(0, translateY.current, 0))],
    the direction before it is normalized. *)
Definition offset (mousePoint : Vector3.t) (ty : R) : Vector3.t :=
  Vector3.sub (Vector3.clone mousePoint) (Vector3.mk 0 ty 0).

(** [const dir = ... .normalize()] *)
Definition dir (mousePoint : Vector3.t) (ty : R) : Vector3.t :=
  Vector3.normalize (offset mousePoint ty).

(** [const dirCos = dir.dot(new THREE.Vector3(0, 1, 0))] *)
Definition dirCos (mousePoint : Vector3.t) (ty : R) : R :=
  Vector3.dot (dir mousePoint ty) (Vector3.mk 0 1 0).

(** [const angle = Math.acos(dirCos) - Math.PI / 2] *)
Definition angle (mousePoint : Vector3.t) (ty : R) : R :=
  acos (dirCos mousePoint ty) - PI / 2.

(** [const boundedAngle = Math.max(-Math.PI / 4, Math.min(Math.PI / 4, angle))] *)
Definition boundedAngle (mousePoint : Vector3.t) (ty : R) : R :=
  Rmax (- PI / 4) (Rmin (PI / 4) (angle mousePoint ty)).

(** [const boundedPitch = Math.max(-Math.PI / 6, Math.min(Math.PI / 6, pitchAngle.current))] *)
Definition boundedPitch (pitch : R) : R :=
  Rmax (- PI / 6) (Rmin (PI / 6) pitch).

(** The body of the [useFrame] callback once the ref is known to hold
    [ship].  Each [let] is one assignment of the source, in its order. *)
Definition steer (mousePoint : Vector3.t) (turbo : R) (ship : Group) (r : Refs) : Refs :=
  let tY := translateY r in
  let tA := translateAcceleration r in
  let aZ := angleZ r in
  let aA := angleAcceleration r in
  let pitch := pitchAngle r in
  let pA := pitchAcceleration r in
  (* if (turbo > 0) { ... } else { ... } *)
  let '(tA, aA, pA) :=
    if Rlt_dec 0 turbo then
      (tA + (0 - tY) * 0.01,
       aA + (0 - aZ) * 0.01,
       pA + (0 - pitch) * 0.01)
    else
      (tA + (boundedY mousePoint - tY) * 0.002,
       aA,
       pA + (targetPitch mousePoint - pitch) * 0.01) in
  (* Apply acceleration damping *)
  let tA := tA * 0.95 in
  let tY := tY + tA in
  let pA := pA * 0.85 in
  let pitch := pitch + pA in
  (* dir, dirCos, angle, boundedAngle and boundedPitch are computed here,
     from the translateY just updated *)
  (* if (!turbo) { angleAcceleration.current += (boundedAngle - angleZ.current) * 0.01 } *)
  let aA :=
    if truthy turbo then aA
    else aA + (boundedAngle mousePoint tY - aZ) * 0.01 in
  let aA := aA * 0.75 in
  let aZ := aZ + aA in
  (* position.setY(...); rotation.set(boundedPitch, -Math.PI / 2, angleZ.current, 'YZX') *)
  let ship :=
    mkGroup (Vector3.setY (position ship) tY)
            (mkEuler (boundedPitch pitch) (- PI / 2) aZ YZX) in
  mkRefs (Some ship) tY tA aZ aA pitch pA.

(** The [useFrame] callback: [if (!spaceshipRef.current) return]. *)
Definition frame (mousePoint : Vector3.t) (turbo : R) (r : Refs) : Refs :=
  match spaceshipRef r with
  | None => r
  | Some ship => steer mousePoint turbo ship r
  end.

(** What happens to the component between mount and unmount: React stores
    the loaded group in the ref (or clears it), and the renderer calls the
    frame callback with the props of that moment. *)
Inductive Event : Type :=
| SetRef (g : option Group)
| Frame (mousePoint : Vector3.t) (turbo : R).

Definition step (r : Refs) (e : Event) : Refs :=
  match e with
  | SetRef g =>
      mkRefs g (translateY r) (translateAcceleration r) (angleZ r)
             (angleAcceleration r) (pitchAngle r) (pitchAcceleration r)
  | Frame mousePoint turbo => frame mousePoint turbo r
  end.

Definition run (es : list Event) : Refs := fold_left step es mount.

End SpaceshipController.

(** ** MousePlane *)

Module MousePlane.

(** [const intersectionPoint = new THREE.Vector3()] *)
Definition intersectionPoint : Vector3.t := Vector3.mk 0 0 0.

(** [handlePointerMove]: the result is the point handed to [onMove], or
    [None] when the handler returns without calling it. *)
Definition handlePointerMove (turbo : R) (event_point : Vector3.t) : option Vector3.t :=
  if Rlt_dec 0 turbo then None
  else Some (Vector3.set intersectionPoint (-3)
               (Vector3.y event_point) (Vector3.z event_point)).

End MousePlane.

(** ** Experience: the state shared by the components *)

Module Experience.

(** [useState(0)] and [useState(new THREE.Vector3(0, 0, 0))] *)
Record State : Type := mkState
  { turbo : R; mousePoint : Vector3.t }.

Definition initial : State := mkState 0 (Vector3.mk 0 0 0).

Definition setTurbo (v : R) (s : State) : State := mkState v (mousePoint s).
Definition setMousePoint (p : Vector3.t) (s : State) : State := mkState (turbo s) p.

(** [if (e.code === 'Space') setTurbo(1)] *)
Definition handleKeyDown (code : string) (s : State) : State :=
  if String.eqb code "Space" then setTurbo 1 s else s.

(** [if (e.code === 'Space') setTurbo(0)] *)
Definition handleKeyUp (code : string) (s : State) : State :=
  if String.eqb code "Space" then setTurbo 0 s else s.

(** [<MousePlane onMove={setMousePoint} turbo={turbo} />] *)
Definition handlePointerMove (event_point : Vector3.t) (s : State) : State :=
  match MousePlane.handlePointerMove (turbo s) event_point with
  | Some p => setMousePoint p s
  | None => s
  end.

Inductive Input : Type :=
| KeyDown (code : string)
| KeyUp (code : string)
| PointerMove (event_point : Vector3.t).

Definition handle (s : State) (i : Input) : State :=
  match i with
  | KeyDown code => handleKeyDown code s
  | KeyUp code => handleKeyUp code s
  | PointerMove p => handlePointerMove p s
  end.

Definition after (inputs : list Input) : State := fold_left handle inputs initial.

End Experience.

(** ** CameraRig *)

Module CameraRig.

(** The camera: its position, the point [camera.lookAt] last aimed it at,
    and the field of view of the perspective camera. *)
Record Camera : Type := mkCamera
  { position : Vector3.t; lookAt : Vector3.t; fov : R }.

Definition basePosition : Vector3.t := Vector3.mk (-4) 4 6.
Definition baseLookAt : Vector3.t := Vector3.mk 0 0 0.
Definition turboPosition : Vector3.t := Vector3.mk 5 1 1.
Definition turboLookAt : Vector3.t := Vector3.mk (-5) 0 0.

(** [const targetPos = turbo ? turboPosition : basePosition] *)
Definition targetPos (turbo : R) : Vector3.t :=
  if truthy turbo then turboPosition else basePosition.

(** [const targetLook = turbo ? turboLookAt : baseLookAt] *)
Definition targetLook (turbo : R) : Vector3.t :=
  if truthy turbo then turboLookAt else baseLookAt.

(** [const targetFOV = 40 + (turbo * 15)] *)
Definition targetFOV (turbo : R) : R := 40 + turbo * 15.

(** The [useFrame] callback. *)
Definition frame (turbo : R) (camera : Camera) : Camera :=
  let position := Vector3.lerp (position camera) (targetPos turbo) 0.05 in
  let lookAt := targetLook turbo in
  let fov := MathUtils.lerp (fov camera) (targetFOV turbo) 0.02 in
  mkCamera position lookAt fov.

(** The effect run on mount. *)
Definition init (camera : Camera) : Camera :=
  let position := Vector3.copy (position camera) basePosition in
  let lookAt := baseLookAt in
  let fov := 40 in
  mkCamera position lookAt fov.

(** [n] frames under a turbo flag that does not change. *)
Definition frames (turbo : R) (n : nat) (camera : Camera) : Camera :=
  Nat.iter n (frame turbo) camera.

End CameraRig.

(** ** DynamicEnvMap *)

Module DynamicEnvMap.

(** Render targets are named by handles.  [alive] holds the handles of the
    generated environment maps that have not been disposed, [fresh] is the
    handle the next [pmrem.fromScene] returns, [previousEnvMap] is the ref
    of the component and [pmrem] tells whether the generator is
    undisposed.  The frame callback also hides the spaceship, clears and
    restores the background and assigns the new texture to the materials;
    none of that creates or disposes a render target. *)
Record State : Type := mkState
  { alive : gset nat;
    fresh : nat;
    previousEnvMap : option nat;
    pmrem : bool }.

(** [useMemo(() => new THREE.PMREMGenerator(gl))], [useRef(null)] *)
Definition mount : State := mkState ∅ 0%nat None true.

(** [pmrem.fromScene(scene)]: a new render target. *)
Definition fromScene (s : State) : nat * State :=
  (fresh s, mkState ({[ fresh s ]} ∪ alive s) (S (fresh s)) (previousEnvMap s) (pmrem s)).

(** [target.dispose()] *)
Definition dispose (h : nat) (s : State) : State :=
  mkState (alive s ∖ {[ h ]}) (fresh s) (previousEnvMap s) (pmrem s).

(** [if (previousEnvMap.current) previousEnvMap.current.dispose()] *)
Definition disposePrevious (s : State) : State :=
  match previousEnvMap s with
  | Some h => dispose h s
  | None => s
  end.

(** [previousEnvMap.current = envMap] *)
Definition setPrevious (h : nat) (s : State) : State :=
  mkState (alive s) (fresh s) (Some h) (pmrem s).

(** The [useFrame] callback. *)
Definition frame (s : State) : State :=
  let '(envMap, s) := fromScene s in
  let s := disposePrevious s in
  setPrevious envMap s.

(** The cleanup of the effect: dispose the previous map, then the
    generator. *)
Definition cleanup (s : State) : State :=
  let s := disposePrevious s in
  mkState (alive s) (fresh s) (previousEnvMap s) false.

Definition frames (n : nat) : State := Nat.iter n frame mount.

End DynamicEnvMap.

(** ** The update laws of the steering springs *)

(** The update [steer] applies to a steered quantity, on the pair
    (value, accel):
    [accel += (target - value) * k; accel *= damping; value += accel]. *)
Definition spring (k damping target : R) (s : R * R) : R * R :=
  let '(value, accel) := s in
  let accel := accel + (target - value) * k in
  let accel := accel * damping in
  let value := value + accel in
  (value, accel).

(** The law in the specification's words, on the triple (value, vel, accel):
    [accel += (target - value) * k; vel = (vel + accel) * damping; value += vel]. *)
Definition spec_spring (k damping target : R) (s : R * R * R) : R * R * R :=
  let '(value, vel, accel) := s in
  let accel := accel + (target - value) * k in
  let vel := (vel + accel) * damping in
  let value := value + vel in
  (value, vel, accel).

(** clamp(v, lo, hi) in the specification's words. *)
Definition clamp (v lo hi : R) : R :=
  if Rlt_dec v lo then lo else if Rlt_dec hi v then hi else v.

(** The region the yaw spring never leaves: the yaw, and the yaw four
    accumulator steps ahead, both within 45 degrees. *)
Definition yaw_inv (r : SpaceshipController.Refs) : Prop :=
  (- (PI / 4) <= SpaceshipController.angleZ r <= PI / 4)
  /\ (- (PI / 4) <= SpaceshipController.angleZ r
                     + 4 * SpaceshipController.angleAcceleration r <= PI / 4).

(** [now] has not passed [target], coming from [start]. *)
Definition same_side (start target now : R) : Prop :=
  (start <= target -> now <= target) /\ (target <= start -> target <= now).

(** What holds of the environment maps between two frames: the only map
    alive is the one [previousEnvMap] refers to, every handle handed out is
    below [fresh], and the generator is undisposed. *)
Definition envmap_inv (s : DynamicEnvMap.State) : Prop :=
  DynamicEnvMap.alive s
    = match DynamicEnvMap.previousEnvMap s with
      | Some h => {[ h ]}
      | None => ∅
      end
  /\ (forall h : nat, DynamicEnvMap.previousEnvMap s = Some h ->
        (h < DynamicEnvMap.fresh s)%nat)
  /\ DynamicEnvMap.pmrem s = true.

(** [spring] on rationals, every result in lowest terms: it evaluates a
    long run exactly. *)
Definition springQ (k damping target : Q) (s : Q * Q) : Q * Q :=
  let '(value, accel) := s in
  let accel := Qred (accel + (target - value) * k) in
  let accel := Qred (accel * damping) in
  let value := Qred (value + accel) in
  (value, accel).

Definition Q2R2 (s : Q * Q) : R * R := (Q2R (fst s), Q2R (snd s)).

(** ** Data used in the examples *)

(** A loaded spaceship group, before the controller has written to it. *)
Definition ship0 : Group :=
  mkGroup (Vector3.mk 0 0 0) (mkEuler 0 0 0 XYZ).

(** ** Quantities the proofs about the springs follow *)

(** The energy of a spring at state (value, accel) around its target: a
    quadratic form in the error [value - target] and the accumulator. *)
Definition spring_energy (k damping target : R) (s : R * R) : R :=
  let '(value, accel) := s in
  let e := value - target in
  damping * k * (e * e) + (1 - damping - damping * k) * (e * accel)
  + damping * (accel * accel).

(** The spring oscillates: its step has no real eigenvalue. *)
Definition oscillating (k damping : R) : Prop :=
  (1 - damping - damping * k) * (1 - damping - damping * k)
  < 4 * (damping * damping * k).

(** The slack of the yaw spring around its target: the larger of the error
    and of the error four accumulator steps ahead. *)
Definition yaw_slack (target : R) (s : R * R) : R :=
  let '(value, accel) := s in
  Rmax (Rabs (value - target)) (Rabs (value - target + 4 * accel)).

(** Frames in turbo mode, one per pointer position. *)
Definition turbo_frames (mps : list Vector3.t) : list SpaceshipController.Event :=
  map (fun mp => SpaceshipController.Frame mp 1) mps.

(** The ship shows the state of the refs: what the last frame wrote to it. *)
Definition ship_synced (r : SpaceshipController.Refs) : Prop :=
  exists ship : Group,
    SpaceshipController.spaceshipRef r = Some ship
    /\ Vector3.y (position ship) = SpaceshipController.translateY r
    /\ rot_x (rotation ship)
       = SpaceshipController.boundedPitch (SpaceshipController.pitchAngle r)
    /\ rot_y (rotation ship) = - PI / 2
    /\ rot_z (rotation ship) = SpaceshipController.angleZ r
    /\ rot_order (rotation ship) = YZX.

(** ** The application as a whole *)

(** Kinds of input. *)
Definition is_space_down (i : Experience.Input) : bool :=
  match i with
  | Experience.KeyDown code => String.eqb code "Space"
  | _ => false
  end.

Definition is_space_up (i : Experience.Input) : bool :=
  match i with
  | Experience.KeyUp code => String.eqb code "Space"
  | _ => false
  end.

Definition is_pointer (i : Experience.Input) : bool :=
  match i with
  | Experience.PointerMove _ => true
  | _ => false
  end.

Module App.

(** The state of [Experience] and of the two components it hands its state
    to: [<CameraRig turbo={turbo} />] and
    [<SpaceshipController mousePoint={mousePoint} turbo={turbo} />]. *)
Record State : Type := mkState
  { experience : Experience.State;
    controller : SpaceshipController.Refs;
    camera : CameraRig.Camera }.

(** An input of the user, React storing the loaded ship in the ref (or
    clearing it), or a rendered frame, in which the [useFrame] callbacks of
    the controller and of the camera rig run on the props of that moment. *)
Inductive Event : Type :=
| Input (i : Experience.Input)
| SetRef (g : option Group)
| Tick.

Definition step (s : State) (e : Event) : State :=
  match e with
  | Input i => mkState (Experience.handle (experience s) i) (controller s) (camera s)
  | SetRef g =>
      mkState (experience s)
              (SpaceshipController.step (controller s) (SpaceshipController.SetRef g))
              (camera s)
  | Tick =>
      mkState (experience s)
              (SpaceshipController.frame (Experience.mousePoint (experience s))
                 (Experience.turbo (experience s)) (controller s))
              (CameraRig.frame (Experience.turbo (experience s)) (camera s))
  end.

(** The mounted application; [camera0] is the camera the canvas created,
    on which the mount effect of the rig has run. *)
Definition mount (camera0 : CameraRig.Camera) : State :=
  mkState Experience.initial SpaceshipController.mount (CameraRig.init camera0).

Definition run (camera0 : CameraRig.Camera) (es : list Event) : State :=
  fold_left step es (mount camera0).

Definition is_pointer_event (e : Event) : bool :=
  match e with
  | Input i => is_pointer i
  | _ => false
  end.

Definition is_space_up_event (e : Event) : bool :=
  match e with
  | Input i => is_space_up i
  | _ => false
  end.

Definition is_space_down_event (e : Event) : bool :=
  match e with
  | Input i => is_space_down i
  | _ => false
  end.

End App.

(** The inputs among the events of the application, in order. *)
Definition inputs_of (es : list App.Event) : list Experience.Input :=
  flat_map (fun e => match e with App.Input i => [i] | _ => [] end) es.

(** The camera is on the segment from the base position to the turbo
    position, and its field of view between the two fields of view. *)
Definition camera_between (c : CameraRig.Camera) : Prop :=
  (exists s : R, 0 <= s <= 1
     /\ CameraRig.position c
        = Vector3.lerp CameraRig.basePosition CameraRig.turboPosition s)
  /\ 40 <= CameraRig.fov c <= 55.

(** ** DynamicEnvMap with the scene it traverses *)

Module EnvScene.

(** A material: whether it is a [THREE.MeshStandardMaterial], and the
    fields the frame callback writes.  [envMap] is the handle of the render
    target whose texture it holds; [version] is what [needsUpdate = true]
    increments. *)
Record Material : Type := mkMaterial
  { standard : bool;
    envMap : option nat;
    envMapIntensity : R;
    normalScale : option (R * R);
    version : nat }.

(** An object of the scene graph: its name, its visibility, and the material
    it refers to when it is a [THREE.Mesh] with a single material. *)
Record Object3D : Type := mkObject
  { name : string;
    visible : bool;
    material : option nat }.

(** The shape of the scene graph: objects by handle, with their children. *)
#[warnings="-register-all"]
Inductive Tree : Type :=
| Node (object : nat) (children : list Tree).

Definition object (t : Tree) : nat :=
  match t with Node o _ => o end.

(** The objects [t.traverse] visits, in its order: [t], then the subtrees of
    its children. *)
Fixpoint preorder (t : Tree) : list Tree :=
  match t with
  | Node o cs => Node o cs :: flat_map preorder cs
  end.

(** The scene: its graph, its background, and the stores of the objects and
    of the materials, which the callbacks update in place. *)
Record Scene : Type := mkScene
  { root : Tree;
    background : option nat;
    objects : gmap nat Object3D;
    materials : gmap nat Material }.

(** [t.traverse(callback)] *)
Definition traverse (callback : Tree -> Scene -> Scene) (t : Tree) (sc : Scene) : Scene :=
  fold_left (fun sc obj => callback obj sc) (preorder t) sc.

Definition is_spaceship (o : Object3D) : bool :=
  String.eqb (name o) "spaceship".

(** [obj.visible = v] *)
Definition setVisible (id : nat) (v : bool) (sc : Scene) : Scene :=
  match objects sc !! id with
  | Some o =>
      mkScene (root sc) (background sc)
              (<[ id := mkObject (name o) v (material o) ]> (objects sc))
              (materials sc)
  | None => sc
  end.

(** [scene.background = b] *)
Definition setBackground (b : option nat) (sc : Scene) : Scene :=
  mkScene (root sc) b (objects sc) (materials sc).

(** [(obj) => { if (obj.name === 'spaceship') obj.visible = false }] *)
Definition hide (obj : Tree) (sc : Scene) : Scene :=
  match objects sc !! object obj with
  | Some o => if is_spaceship o then setVisible (object obj) false sc else sc
  | None => sc
  end.

(** The callback of the inner traverse: on a mesh with a standard material,
    [envMap = envMap.texture; envMapIntensity = 100;
     normalScale?.set(0.3, 0.3); needsUpdate = true]. *)
Definition applyEnvMap (envMap : nat) (child : Tree) (sc : Scene) : Scene :=
  match objects sc !! object child with
  | Some o =>
      match material o with
      | Some m =>
          match materials sc !! m with
          | Some mat =>
              if standard mat then
                mkScene (root sc) (background sc) (objects sc)
                  (<[ m := mkMaterial true (Some envMap) 100
                             (option_map (fun _ => (0.3, 0.3)) (normalScale mat))
                             (S (version mat)) ]> (materials sc))
              else sc
          | None => sc
          end
      | None => sc
      end
  | None => sc
  end.

(** [(obj) => { if (obj.name === 'spaceship') { obj.visible = true;
                obj.traverse((child) => ...) } }] *)
Definition show (envMap : nat) (obj : Tree) (sc : Scene) : Scene :=
  match objects sc !! object obj with
  | Some o =>
      if is_spaceship o then
        traverse (applyEnvMap envMap) obj (setVisible (object obj) true sc)
      else sc
  | None => sc
  end.

(** The scene [pmrem.fromScene(scene)] renders: every spaceship hidden, the
    background cleared. *)
Definition seen (sc : Scene) : Scene :=
  setBackground None (traverse hide (root sc) sc).

Record State : Type := mkState
  { scene : Scene; gpu : DynamicEnvMap.State }.

(** The [useFrame] callback, on the scene and the render targets. *)
Definition frame (s : State) : State :=
  let sc := traverse hide (root (scene s)) (scene s) in
  let originalBackground := background sc in
  let sc := setBackground None sc in
  let '(envMap, g) := DynamicEnvMap.fromScene (gpu s) in
  let sc := setBackground originalBackground sc in
  let sc := traverse (show envMap) (root sc) sc in
  let g := DynamicEnvMap.disposePrevious g in
  mkState sc (DynamicEnvMap.setPrevious envMap g).

(** The object [child] is at or below an object named spaceship of the
    graph. *)
Definition on_ship (sc : Scene) (child : Tree) : Prop :=
  exists (ship : Tree) (o : Object3D),
    In ship (preorder (root sc))
    /\ objects sc !! object ship = Some o
    /\ is_spaceship o = true
    /\ In child (preorder ship).

End EnvScene.

(** What a traversal may do to the objects: keep the name and the material
    of each, and change only the visibility of spaceships, to [v]. *)
Definition objects_step (v : bool) (O O' : gmap nat EnvScene.Object3D) : Prop :=
  forall id : nat,
    match O !! id, O' !! id with
    | Some a, Some b =>
        EnvScene.name b = EnvScene.name a
        /\ EnvScene.material b = EnvScene.material a
        /\ (b = a \/ (EnvScene.is_spaceship a = true /\ EnvScene.visible b = v))
    | None, None => True
    | _, _ => False
    end.

(** A material carries the environment map [e] as the callback sets it. *)
Definition carries (e : nat) (mat : EnvScene.Material) : Prop :=
  EnvScene.standard mat = true
  /\ EnvScene.envMap mat = Some e
  /\ EnvScene.envMapIntensity mat = 100
  /\ (EnvScene.normalScale mat = None \/ EnvScene.normalScale mat = Some (0.3, 0.3)).

(** What a traversal may do to the materials: leave each as it is, or make a
    standard one carry [e]. *)
Definition materials_step (e : nat) (M M' : gmap nat EnvScene.Material) : Prop :=
  forall m : nat,
    match M !! m, M' !! m with
    | Some a, Some b =>
        EnvScene.standard b = EnvScene.standard a
        /\ (b = a \/ carries e b)
    | None, None => True
    | _, _ => False
    end.

(** [n] frames of DynamicEnvMap on a scene. *)
Definition env_frames (n : nat) (s : EnvScene.State) : EnvScene.State :=
  Nat.iter n EnvScene.frame s.

(** Two stores hold the same objects up to their visibility. *)
Definition same_objects (O O' : gmap nat EnvScene.Object3D) : Prop :=
  forall id : nat,
    match O !! id, O' !! id with
    | Some a, Some b =>
        EnvScene.name b = EnvScene.name a
        /\ EnvScene.material b = EnvScene.material a
        /\ (EnvScene.is_spaceship a = false -> b = a)
    | None, None => True
    | _, _ => False
    end.

(** * Properties *)

Import SpaceshipController.

(** ** Conditions on the turbo flag *)

Lemma truthy_0 : truthy 0 = false.
Proof. unfold truthy. destruct (Req_dec_T 0 0); congruence. Qed.

Lemma truthy_nonzero (n : R) : n <> 0 -> truthy n = true.
Proof. intros Hn. unfold truthy. destruct (Req_dec_T n 0); congruence. Qed.

Lemma truthy_1 : truthy 1 = true.
Proof. apply truthy_nonzero. lra. Qed.

(** Decide the tests of a frame on a turbo flag that is 0 or 1. *)
Ltac decide_flag :=
  repeat match goal with
  | |- context [Rlt_dec ?a ?b] => destruct (Rlt_dec a b); try lra
  | |- context [truthy 0] => rewrite truthy_0
  | |- context [truthy 1] => rewrite truthy_1
  end.

(** Unfold a clamp on given numbers. *)
Ltac decide_le :=
  repeat match goal with
  | |- context [Rle_dec ?a ?b] => destruct (Rle_dec a b)
  end.

Ltac decide_clamp :=
  unfold Rmin; decide_le; unfold Rmax; decide_le; try lra.

(** ** The frame of the controller, mode by mode *)

Lemma steer_manual (mp : Vector3.t) (ship : Group) (r : Refs) :
  steer mp 0 ship r =
    let tA := (translateAcceleration r + (boundedY mp - translateY r) * 0.002) * 0.95 in
    let tY := translateY r + tA in
    let pA := (pitchAcceleration r + (targetPitch mp - pitchAngle r) * 0.01) * 0.85 in
    let pitch := pitchAngle r + pA in
    let aA := (angleAcceleration r + (boundedAngle mp tY - angleZ r) * 0.01) * 0.75 in
    let aZ := angleZ r + aA in
    mkRefs (Some (mkGroup (Vector3.setY (position ship) tY)
                          (mkEuler (boundedPitch pitch) (- PI / 2) aZ YZX)))
           tY tA aZ aA pitch pA.
Proof. unfold steer. decide_flag. reflexivity. Qed.

Lemma steer_turbo (mp : Vector3.t) (ship : Group) (r : Refs) :
  steer mp 1 ship r =
    let tA := (translateAcceleration r + (0 - translateY r) * 0.01) * 0.95 in
    let tY := translateY r + tA in
    let pA := (pitchAcceleration r + (0 - pitchAngle r) * 0.01) * 0.85 in
    let pitch := pitchAngle r + pA in
    let aA := (angleAcceleration r + (0 - angleZ r) * 0.01) * 0.75 in
    let aZ := angleZ r + aA in
    mkRefs (Some (mkGroup (Vector3.setY (position ship) tY)
                          (mkEuler (boundedPitch pitch) (- PI / 2) aZ YZX)))
           tY tA aZ aA pitch pA.
Proof. unfold steer. decide_flag. reflexivity. Qed.

Lemma frame_loaded (mp : Vector3.t) (turbo : R) (ship : Group) (r : Refs) :
  spaceshipRef r = Some ship -> frame mp turbo r = steer mp turbo ship r.
Proof. intros H. unfold frame. rewrite H. reflexivity. Qed.

(** ** C8: a frame before the mesh is loaded *)

(** C8. While the spaceship ref is null the frame callback returns at once:
    the refs after the frame are the refs before it, every component
    included, and the callback has no other outcome. *)
Theorem frame_not_loaded (mp : Vector3.t) (turbo : R) (r : Refs) :
  spaceshipRef r = None ->
  frame mp turbo r = r
  /\ translateY (frame mp turbo r) = translateY r
  /\ translateAcceleration (frame mp turbo r) = translateAcceleration r
  /\ angleZ (frame mp turbo r) = angleZ r
  /\ angleAcceleration (frame mp turbo r) = angleAcceleration r
  /\ pitchAngle (frame mp turbo r) = pitchAngle r
  /\ pitchAcceleration (frame mp turbo r) = pitchAcceleration r.
Proof.
  intros H. unfold frame. rewrite H. repeat split.
Qed.

Lemma frame_not_loaded_witness :
  frame (Vector3.mk (-3) 5 2) 0 (mkRefs None 1 2 3 4 5 6) = mkRefs None 1 2 3 4 5 6.
Proof.
  apply (frame_not_loaded (Vector3.mk (-3) 5 2) 0 (mkRefs None 1 2 3 4 5 6)).
  reflexivity.
Defined.

(** ** C1: the update law *)

(** C1, as the code has it.  In a frame with the ship loaded every steered
    quantity goes through the two-variable update
    [accel = (accel + (target - value) * k) * damping; value += accel]:
    the code keeps no velocity besides the damped accumulator.  Manual mode
    (turbo = 0): vertical k = 0.002, damping 0.95, target boundedY; pitch
    k = 0.01, damping 0.85, target mousePoint.z * 0.5; yaw k = 0.01, damping
    0.75, target boundedAngle at the new vertical position.  Turbo mode
    (turbo = 1): all three targets 0, k = 0.01, same dampings. *)
Theorem steer_two_variable_spring (mp : Vector3.t) (ship : Group) (r : Refs) :
  spaceshipRef r = Some ship ->
  (let r' := frame mp 0 r in
   (translateY r', translateAcceleration r')
     = spring 0.002 0.95 (boundedY mp) (translateY r, translateAcceleration r)
   /\ (pitchAngle r', pitchAcceleration r')
     = spring 0.01 0.85 (targetPitch mp) (pitchAngle r, pitchAcceleration r)
   /\ (angleZ r', angleAcceleration r')
     = spring 0.01 0.75 (boundedAngle mp (translateY r')) (angleZ r, angleAcceleration r))
  /\
  (let r' := frame mp 1 r in
   (translateY r', translateAcceleration r')
     = spring 0.01 0.95 0 (translateY r, translateAcceleration r)
   /\ (pitchAngle r', pitchAcceleration r')
     = spring 0.01 0.85 0 (pitchAngle r, pitchAcceleration r)
   /\ (angleZ r', angleAcceleration r')
     = spring 0.01 0.75 0 (angleZ r, angleAcceleration r)).
Proof.
  intros H. split.
  - rewrite (frame_loaded _ _ _ _ H), steer_manual. cbn. repeat split.
  - rewrite (frame_loaded _ _ _ _ H), steer_turbo. cbn. repeat split.
Qed.

Lemma steer_two_variable_spring_witness :
  let r := mkRefs (Some ship0) 0 0 0 0 0 0 in
  (pitchAngle (frame (Vector3.mk (-3) 0 2) 0 r),
   pitchAcceleration (frame (Vector3.mk (-3) 0 2) 0 r))
  = spring 0.01 0.85 (targetPitch (Vector3.mk (-3) 0 2)) (0, 0).
Proof.
  exact (proj1 (proj2 (proj1
    (steer_two_variable_spring (Vector3.mk (-3) 0 2) ship0
       (mkRefs (Some ship0) 0 0 0 0 0 0) eq_refl)))).
Defined.

(** Two manual frames from rest with the pointer at (-3, 0, 2), so that the
    pitch target is 1.  The code's pitch is 0.02415275; the specification's
    three-variable law, started from rest, gives 0.03265275. *)
Lemma spec_spring_differs :
  let mp := Vector3.mk (-3) 0 2 in
  let r2 := run [SetRef (Some ship0); Frame mp 0; Frame mp 0] in
  let s2 := spec_spring 0.01 0.85 (targetPitch mp)
              (spec_spring 0.01 0.85 (targetPitch mp) (0, 0, 0)) in
  pitchAngle r2 = 0.02415275
  /\ fst (fst s2) = 0.03265275
  /\ pitchAngle r2 <> fst (fst s2).
Proof.
  cbv zeta.
  assert (Hc : pitchAngle (run [SetRef (Some ship0); Frame (Vector3.mk (-3) 0 2) 0;
                                Frame (Vector3.mk (-3) 0 2) 0]) = 0.02415275).
  { unfold run. cbn [fold_left step].
    unfold frame at 2. cbn [spaceshipRef mount]. rewrite steer_manual. cbv zeta.
    unfold frame. cbn [spaceshipRef]. rewrite steer_manual. cbn.
    unfold targetPitch. cbn. lra. }
  assert (Hs : fst (fst (spec_spring 0.01 0.85 (targetPitch (Vector3.mk (-3) 0 2))
                 (spec_spring 0.01 0.85 (targetPitch (Vector3.mk (-3) 0 2)) (0, 0, 0))))
               = 0.03265275).
  { unfold targetPitch. cbn. lra. }
  rewrite Hc, Hs. repeat split. lra.
Qed.

(** No hidden velocity and acceleration make the three-variable law follow
    the code: whatever values the law starts from, its pitch leaves the
    code's within three frames of the run above. *)
Lemma spec_spring_never_tracks :
  let mp := Vector3.mk (-3) 0 2 in
  let f := Frame mp 0 in
  ~ exists vel accel : R,
      let s1 := spec_spring 0.01 0.85 (targetPitch mp) (0, vel, accel) in
      let s2 := spec_spring 0.01 0.85 (targetPitch mp) s1 in
      let s3 := spec_spring 0.01 0.85 (targetPitch mp) s2 in
      fst (fst s1) = pitchAngle (run [SetRef (Some ship0); f])
      /\ fst (fst s2) = pitchAngle (run [SetRef (Some ship0); f; f])
      /\ fst (fst s3) = pitchAngle (run [SetRef (Some ship0); f; f; f]).
Proof.
  cbv zeta. intros (vel & accel & H1 & H2 & H3).
  unfold run in H1, H2, H3. cbn [fold_left step] in H1, H2, H3.
  unfold frame in H1, H2, H3. cbn [spaceshipRef mount] in H1, H2, H3.
  repeat (rewrite steer_manual in H1; cbv zeta in H1; cbn [spaceshipRef] in H1).
  repeat (rewrite steer_manual in H2; cbv zeta in H2; cbn [spaceshipRef] in H2).
  repeat (rewrite steer_manual in H3; cbv zeta in H3; cbn [spaceshipRef] in H3).
  unfold targetPitch in H1, H2, H3. cbn in H1, H2, H3. lra.
Qed.

(** ** C4: the vertical target in manual mode *)

Lemma boundedY_clamp (mp : Vector3.t) :
  boundedY mp = clamp (Vector3.y mp) (-3) 1.
Proof.
  unfold boundedY, clamp.
  destruct (Rlt_dec (Vector3.y mp) (-3)); [decide_clamp|].
  destruct (Rlt_dec 1 (Vector3.y mp)); decide_clamp.
Qed.

Lemma boundedY_range (mp : Vector3.t) : -3 <= boundedY mp <= 1.
Proof. unfold boundedY. decide_clamp. Qed.

(** C4. In a manual frame (turbo = 0, ship loaded) the target the vertical
    spring is driven by is clamp(pointer.y, -3, 1), which lies in [-3, 1];
    the position is then integrated from it and written to the ship as
    integrated, with no clamp of its own. *)
Theorem manual_vertical_target (mp : Vector3.t) (ship : Group) (r : Refs) :
  spaceshipRef r = Some ship ->
  let r' := frame mp 0 r in
  let target := clamp (Vector3.y mp) (-3) 1 in
  -3 <= target <= 1
  /\ translateAcceleration r'
     = (translateAcceleration r + (target - translateY r) * 0.002) * 0.95
  /\ translateY r' = translateY r + translateAcceleration r'
  /\ exists ship', spaceshipRef r' = Some ship'
       /\ Vector3.y (position ship') = translateY r'.
Proof.
  intros H. cbv zeta. rewrite <- boundedY_clamp.
  rewrite (frame_loaded _ _ _ _ H), steer_manual. cbn.
  split; [apply boundedY_range|]. repeat split.
  eexists; split; reflexivity.
Qed.

Lemma manual_vertical_target_witness :
  translateY (frame (Vector3.mk (-3) 5 2) 0 (mkRefs (Some ship0) 0 0 0 0 0 0))
  = 0 + translateAcceleration
          (frame (Vector3.mk (-3) 5 2) 0 (mkRefs (Some ship0) 0 0 0 0 0 0)).
Proof.
  exact (proj1 (proj2 (proj2
    (manual_vertical_target (Vector3.mk (-3) 5 2) ship0
       (mkRefs (Some ship0) 0 0 0 0 0 0) eq_refl)))).
Defined.

(** *** The integrated position does leave [-3, 1] *)

Lemma Q2R_Qred (q : Q) : Q2R (Qred q) = Q2R q.
Proof. apply Qeq_eqR, Qred_correct. Qed.

Lemma springQ_spring (k d t : Q) (s : Q * Q) :
  Q2R2 (springQ k d t s) = spring (Q2R k) (Q2R d) (Q2R t) (Q2R2 s).
Proof.
  destruct s as [v a]. unfold Q2R2, springQ, spring. cbn [fst snd].
  rewrite !Q2R_Qred, !Q2R_plus, !Q2R_Qred, !Q2R_mult, !Q2R_Qred, !Q2R_plus,
    !Q2R_mult, !Q2R_minus.
  reflexivity.
Qed.

Lemma springQ_iter (k d t : Q) (n : nat) (s : Q * Q) :
  Q2R2 (Nat.iter n (springQ k d t) s)
  = Nat.iter n (spring (Q2R k) (Q2R d) (Q2R t)) (Q2R2 s).
Proof.
  induction n as [|n IH]; [reflexivity|].
  rewrite !Nat.iter_succ, <- IH. apply springQ_spring.
Qed.

(** [n] manual frames under one pointer are [n] steps of the vertical
    spring. *)
Lemma manual_frames_vertical (mp : Vector3.t) (n : nat) (ship : Group) (r : Refs) :
  spaceshipRef r = Some ship ->
  let r' := fold_left step (repeat (Frame mp 0) n) r in
  (translateY r', translateAcceleration r')
  = Nat.iter n (spring 0.002 0.95 (boundedY mp)) (translateY r, translateAcceleration r).
Proof.
  cbv zeta. revert ship r. induction n as [|n IH]; intros ship r H; [reflexivity|].
  cbn [repeat fold_left step]. rewrite (frame_loaded _ _ _ _ H), steer_manual. cbv zeta.
  erewrite IH by reflexivity. rewrite Nat.iter_succ_r. reflexivity.
Qed.

Lemma Q2R_one : Q2R 1 = 1.
Proof. unfold Q2R. cbn. lra. Qed.

Lemma Q2R_zero : Q2R 0 = 0.
Proof. unfold Q2R. cbn. lra. Qed.

(** The height after [n] manual frames from rest under a pointer held at
    height 1, as a rational. *)
Lemma held_pointer_height (n : nat) :
  translateY (run (SetRef (Some ship0) :: repeat (Frame (Vector3.mk (-3) 1 0) 0) n))
  = Q2R (fst (Nat.iter n (springQ (2 # 1000) (95 # 100) 1) (0%Q, 0%Q))).
Proof.
  unfold run. cbn [fold_left step].
  pose proof (manual_frames_vertical (Vector3.mk (-3) 1 0) n ship0
                (mkRefs (Some ship0) 0 0 0 0 0 0) eq_refl) as H.
  cbv zeta in H. apply (f_equal fst) in H. cbn [fst mount translateY translateAcceleration] in H.
  cbn [mount translateY translateAcceleration angleZ angleAcceleration
       pitchAngle pitchAcceleration].
  rewrite H. clear H.
  replace (boundedY (Vector3.mk (-3) 1 0)) with (Q2R 1)
    by (rewrite Q2R_one; unfold boundedY; cbn; decide_clamp).
  replace 0.002 with (Q2R (2 # 1000)) by (unfold Q2R; cbn; lra).
  replace 0.95 with (Q2R (95 # 100)) by (unfold Q2R; cbn; lra).
  replace (0, 0) with (Q2R2 (0%Q, 0%Q))
    by (unfold Q2R2; cbn [fst snd]; rewrite Q2R_zero; reflexivity).
  rewrite <- springQ_iter. reflexivity.
Qed.

(** With the pointer held at height 1, inside the clamp's range, the ship
    is above 1 after 61 frames from rest. *)
Lemma vertical_overshoot :
  1 < translateY (run (SetRef (Some ship0) :: repeat (Frame (Vector3.mk (-3) 1 0) 0) 61)).
Proof.
  refine (eq_ind_r (fun v => 1 < v) _ (held_pointer_height 61)).
  refine (eq_ind (Q2R 1) (fun v => v < _) _ 1 Q2R_one).
  apply Qlt_Rlt. vm_compute. reflexivity.
Qed.

(** ** C7: turbo mode *)

Lemma frame_turbo_ignores_pointer (mp mp' : Vector3.t) (r : Refs) :
  frame mp 1 r = frame mp' 1 r.
Proof.
  unfold frame. destruct (spaceshipRef r); [|reflexivity].
  rewrite !steer_turbo. reflexivity.
Qed.

(** C7. With turbo = 1 and the ship loaded, whatever state the earlier frames
    left: the vertical position, the yaw and the pitch are each pulled toward
    0 with constant 0.01; the frame's result does not depend on the pointer;
    and MousePlane hands no pointer event on to the controller. *)
Theorem turbo_auto_center (mp : Vector3.t) (ship : Group) (r : Refs) :
  spaceshipRef r = Some ship ->
  let r' := frame mp 1 r in
  translateAcceleration r'
    = (translateAcceleration r + (0 - translateY r) * 0.01) * 0.95
  /\ translateY r' = translateY r + translateAcceleration r'
  /\ angleAcceleration r'
    = (angleAcceleration r + (0 - angleZ r) * 0.01) * 0.75
  /\ angleZ r' = angleZ r + angleAcceleration r'
  /\ pitchAcceleration r'
    = (pitchAcceleration r + (0 - pitchAngle r) * 0.01) * 0.85
  /\ pitchAngle r' = pitchAngle r + pitchAcceleration r'
  /\ (forall mp', frame mp' 1 r = r')
  /\ (forall event_point, MousePlane.handlePointerMove 1 event_point = None)
  /\ (forall event_point s, Experience.turbo s = 1 ->
        Experience.handlePointerMove event_point s = s).
Proof.
  intros H. cbv zeta. rewrite (frame_loaded _ _ _ _ H), steer_turbo. cbn.
  repeat split.
  - intros mp'. rewrite (frame_loaded _ _ _ _ H), steer_turbo. reflexivity.
  - intros p. unfold MousePlane.handlePointerMove. decide_flag. reflexivity.
  - intros p s Hs. unfold Experience.handlePointerMove, MousePlane.handlePointerMove.
    rewrite Hs. decide_flag. reflexivity.
Qed.

Lemma turbo_auto_center_witness :
  translateAcceleration
    (frame (Vector3.mk (-3) 5 2) 1 (mkRefs (Some ship0) 1 0 0 0 0 0))
  = (0 + (0 - 1) * 0.01) * 0.95.
Proof.
  exact (proj1
    (turbo_auto_center (Vector3.mk (-3) 5 2) ship0
       (mkRefs (Some ship0) 1 0 0 0 0 0) eq_refl)).
Defined.

(** ** C10: what MousePlane hands to the controller *)

(** Whatever the inputs so far, the turbo flag is 0 or 1, and the point the
    controller steers by is the initial (0, 0, 0) or has x = -3. *)
Lemma experience_invariant (inputs : list Experience.Input) :
  let s := Experience.after inputs in
  (Experience.turbo s = 0 \/ Experience.turbo s = 1)
  /\ (Experience.mousePoint s = Vector3.mk 0 0 0
      \/ Vector3.x (Experience.mousePoint s) = -3).
Proof.
  cbv zeta. unfold Experience.after.
  induction inputs as [|i inputs IH] using rev_ind.
  - cbn. auto.
  - rewrite fold_left_app. cbn [fold_left].
    set (s := fold_left Experience.handle inputs Experience.initial) in *.
    destruct IH as [Ht Hp]. destruct i as [code|code|p]; cbn.
    + unfold Experience.handleKeyDown. destruct (String.eqb code "Space"); cbn; auto.
    + unfold Experience.handleKeyUp. destruct (String.eqb code "Space"); cbn; auto.
    + unfold Experience.handlePointerMove, MousePlane.handlePointerMove.
      destruct (Rlt_dec 0 (Experience.turbo s)); cbn; auto.
Qed.

(** C10. A pointer event handled in manual mode reaches the controller as
    (-3, y, z): the event's x is dropped, its y and z are kept, the point
    becomes the controller's [mousePoint], and the direction the yaw is
    computed from has x = -3 before it is normalized. *)
Theorem pointer_x_fixed (event_point : Vector3.t) (s : Experience.State) :
  Experience.turbo s = 0 ->
  exists p,
    MousePlane.handlePointerMove (Experience.turbo s) event_point = Some p
    /\ Vector3.x p = -3
    /\ Vector3.y p = Vector3.y event_point
    /\ Vector3.z p = Vector3.z event_point
    /\ Experience.mousePoint (Experience.handlePointerMove event_point s) = p
    /\ (forall ty, Vector3.x (offset p ty) = -3)
    /\ (forall other, Vector3.y other = Vector3.y event_point ->
          Vector3.z other = Vector3.z event_point ->
          MousePlane.handlePointerMove (Experience.turbo s) other = Some p).
Proof.
  intros Hs. unfold Experience.handlePointerMove, MousePlane.handlePointerMove.
  rewrite Hs. decide_flag. eexists. split; [reflexivity|]. cbn.
  repeat split.
  - intros ty. lra.
  - intros other Hy Hz. rewrite Hy, Hz. reflexivity.
Qed.

Lemma pointer_x_fixed_witness :
  exists p,
    MousePlane.handlePointerMove 0 (Vector3.mk 7 5 2) = Some p
    /\ Vector3.x p = -3.
Proof.
  destruct (pointer_x_fixed (Vector3.mk 7 5 2) Experience.initial eq_refl)
    as (p & H1 & H2 & _).
  exists p. split; [exact H1 | exact H2].
Defined.

(** ** C2: the rotation written to the ship *)

Lemma deg_45 : deg 45 = PI / 4.
Proof. unfold deg. lra. Qed.

Lemma deg_30 : deg 30 = PI / 6.
Proof. unfold deg. lra. Qed.

Lemma boundedAngle_range (mp : Vector3.t) (ty : R) :
  - (PI / 4) <= boundedAngle mp ty <= PI / 4.
Proof.
  pose proof PI_RGT_0. unfold boundedAngle. decide_clamp.
Qed.

Lemma boundedPitch_range (pitch : R) :
  - (PI / 6) <= boundedPitch pitch <= PI / 6.
Proof.
  pose proof PI_RGT_0. unfold boundedPitch. decide_clamp.
Qed.

Lemma boundedPitch_clamp (pitch : R) :
  boundedPitch pitch = clamp pitch (- deg 30) (deg 30).
Proof.
  pose proof PI_RGT_0. rewrite deg_30. unfold boundedPitch, clamp.
  destruct (Rlt_dec pitch (- (PI / 6))); [decide_clamp|].
  destruct (Rlt_dec (PI / 6) pitch); decide_clamp.
Qed.

(** One step of the yaw spring toward a target within 45 degrees keeps
    [yaw_inv]: the new yaw and the new look-ahead are both weighted means of
    the old yaw, the old look-ahead and the target. *)
Lemma steer_yaw_inv (mp : Vector3.t) (turbo : R) (ship : Group) (r : Refs) :
  yaw_inv r -> yaw_inv (steer mp turbo ship r).
Proof.
  unfold yaw_inv. intros [Hv Hw]. pose proof PI_RGT_0 as Hpi.
  unfold steer.
  destruct (Rlt_dec 0 turbo) as [Hpos|Hneg].
  - rewrite truthy_nonzero by lra. cbn. split; lra.
  - destruct (truthy turbo) eqn:Ht; cbn.
    + split; lra.
    + match goal with
      | |- context [boundedAngle ?m ?t] =>
          pose proof (boundedAngle_range m t) as Hb;
          generalize dependent (boundedAngle m t)
      end.
      intros b Hb. split; lra.
Qed.

Lemma step_yaw_inv (r : Refs) (e : Event) : yaw_inv r -> yaw_inv (step r e).
Proof.
  intros H. destruct e as [g|mp turbo]; cbn.
  - exact H.
  - unfold frame. destruct (spaceshipRef r); [apply steer_yaw_inv|]; exact H.
Qed.

Lemma run_yaw_inv (es : list Event) : yaw_inv (run es).
Proof.
  unfold run. induction es as [|e es IH] using rev_ind.
  - cbn. unfold yaw_inv. cbn. pose proof PI_RGT_0. split; lra.
  - rewrite fold_left_app. cbn. apply step_yaw_inv, IH.
Qed.

(** C2. In every frame of every run from mount in which the ship is loaded,
    the rotation written to the ship has its pitch within 30 degrees and its
    yaw within 45 degrees.  The pitch written is the pitch spring's output
    clamped; the yaw written is the yaw spring's output, which stays within
    45 degrees because its target is clamped there. *)
Theorem applied_rotation_bounded
    (es : list Event) (mp : Vector3.t) (turbo : R) (ship : Group) :
  spaceshipRef (run es) = Some ship ->
  let r' := frame mp turbo (run es) in
  exists ship',
    spaceshipRef r' = Some ship'
    /\ - deg 30 <= rot_x (rotation ship') <= deg 30
    /\ - deg 45 <= rot_z (rotation ship') <= deg 45
    /\ rot_x (rotation ship') = clamp (pitchAngle r') (- deg 30) (deg 30)
    /\ rot_z (rotation ship') = angleZ r'.
Proof.
  intros H. cbv zeta. rewrite (frame_loaded _ _ _ _ H).
  pose proof (steer_yaw_inv mp turbo ship _ (run_yaw_inv es)) as [Hyaw _].
  rewrite deg_45. rewrite <- boundedPitch_clamp. rewrite deg_30.
  revert Hyaw. unfold steer.
  destruct (Rlt_dec 0 turbo); destruct (truthy turbo); cbn; intros Hyaw;
    (eexists; split; [reflexivity|]; cbn;
     split; [apply boundedPitch_range|]; split; [exact Hyaw|]; split; reflexivity).
Qed.

Lemma applied_rotation_bounded_witness :
  exists ship',
    spaceshipRef (frame (Vector3.mk (-3) 5 2) 0 (run [SetRef (Some ship0)])) = Some ship'
    /\ - deg 30 <= rot_x (rotation ship') <= deg 30
    /\ - deg 45 <= rot_z (rotation ship') <= deg 45.
Proof.
  destruct (applied_rotation_bounded [SetRef (Some ship0)] (Vector3.mk (-3) 5 2) 0
              ship0 eq_refl) as (ship' & H1 & H2 & H3 & _).
  exists ship'. split; [exact H1|]. split; [exact H2 | exact H3].
Defined.

(** The pitch written is within 30 degrees from any state of the refs. *)
Lemma applied_pitch_bounded (mp : Vector3.t) (turbo : R) (ship : Group) (r : Refs) :
  exists ship',
    spaceshipRef (steer mp turbo ship r) = Some ship'
    /\ - deg 30 <= rot_x (rotation ship') <= deg 30.
Proof.
  rewrite deg_30. unfold steer.
  destruct (Rlt_dec 0 turbo); destruct (truthy turbo); cbn;
    (eexists; split; [reflexivity|]; cbn; apply boundedPitch_range).
Qed.

(** ** A direction of length zero *)

Lemma length_sqr (v : Vector3.t) :
  Vector3.length v * Vector3.length v
  = Vector3.x v * Vector3.x v + Vector3.y v * Vector3.y v + Vector3.z v * Vector3.z v.
Proof. unfold Vector3.length. apply sqrt_sqrt. nra. Qed.

Lemma length_nonneg (v : Vector3.t) : 0 <= Vector3.length v.
Proof. apply sqrt_pos. Qed.

Lemma length_zero (v : Vector3.t) :
  Vector3.length v = 0 -> Vector3.x v = 0 /\ Vector3.y v = 0 /\ Vector3.z v = 0.
Proof.
  intros H. pose proof (length_sqr v) as Hs. rewrite H in Hs.
  repeat split; nra.
Qed.


Lemma normalize_zero (v : Vector3.t) :
  Vector3.length v = 0 -> Vector3.normalize v = Vector3.mk 0 0 0.
Proof.
  intros H. destruct (length_zero v H) as (Hx & Hy & Hz).
  unfold Vector3.normalize. rewrite H, truthy_0.
  unfold Vector3.divideScalar, Vector3.multiplyScalar.
  rewrite Hx, Hy, Hz. f_equal; lra.
Qed.

(** The argument of [Math.acos] is a cosine: it lies in [-1, 1]. *)
Lemma dirCos_range (mp : Vector3.t) (ty : R) : -1 <= dirCos mp ty <= 1.
Proof.
  unfold dirCos, dir. generalize (offset mp ty) as v. intros v.
  destruct (Req_dec_T (Vector3.length v) 0) as [H0|Hn].
  - rewrite (normalize_zero v H0). unfold Vector3.dot.
    cbn [Vector3.x Vector3.y Vector3.z]. lra.
  - unfold Vector3.normalize. rewrite (truthy_nonzero _ Hn).
    unfold Vector3.divideScalar, Vector3.multiplyScalar, Vector3.dot. cbn.
    pose proof (length_nonneg v) as Hl. pose proof (length_sqr v) as Hs.
    assert (Hpos : 0 < Vector3.length v) by lra.
    assert (Hi : 0 < 1 / Vector3.length v).
    { unfold Rdiv. rewrite Rmult_1_l. apply Rinv_0_lt_compat, Hpos. }
    assert (Hil : 1 / Vector3.length v * Vector3.length v = 1) by (field; lra).
    assert (Hy : - Vector3.length v <= Vector3.y v <= Vector3.length v) by (split; nra).
    set (i := 1 / Vector3.length v) in *. clearbody i.
    split; nra.
Qed.

Lemma zero_direction (mp : Vector3.t) (ty : R) :
  Vector3.length (offset mp ty) = 0 ->
  dir mp ty = Vector3.mk 0 0 0
  /\ dirCos mp ty = 0
  /\ angle mp ty = 0
  /\ boundedAngle mp ty = 0.
Proof.
  intros H.
  assert (Hd : dir mp ty = Vector3.mk 0 0 0) by (apply normalize_zero, H).
  assert (Hc : dirCos mp ty = 0).
  { unfold dirCos. rewrite Hd. unfold Vector3.dot. cbn. lra. }
  assert (Ha : angle mp ty = 0).
  { unfold angle. rewrite Hc, acos_0. lra. }
  repeat split; try assumption.
  unfold boundedAngle. rewrite Ha. pose proof PI_RGT_0. decide_clamp.
Qed.

(** In the application the direction has length zero only while the point
    is still the initial (0, 0, 0): every point MousePlane hands on has
    x = -3. *)
Lemma zero_direction_only_initially (inputs : list Experience.Input) (ty : R) :
  Vector3.length (offset (Experience.mousePoint (Experience.after inputs)) ty) = 0 ->
  Experience.mousePoint (Experience.after inputs) = Vector3.mk 0 0 0.
Proof.
  intros H. destruct (experience_invariant inputs) as [_ [Hp|Hx]]; [exact Hp|].
  apply length_zero in H. destruct H as (H & _).
  unfold offset in H. cbn in H. lra.
Qed.

Lemma acos_pos_lt (c : R) : 0 < c -> acos c < PI / 2.
Proof.
  intros Hc. rewrite (acos_atan c Hc). apply atan_bound.
Qed.

(** ** C5: one frame of the camera rig *)

(** C5. A frame moves each coordinate of the camera position by 0.05 of its
    distance to the target and the field of view by 0.02 of its distance to
    the target, and aims the camera at the look-at target at once.  The
    targets are (-4, 4, 6), (0, 0, 0) and 40 when turbo = 0, and (5, 1, 1),
    (-5, 0, 0) and 55 when turbo = 1.  The mount effect puts the camera at
    (-4, 4, 6), aimed at (0, 0, 0), with field of view 40. *)
Theorem camera_frame (camera : CameraRig.Camera) :
  let p := CameraRig.position camera in
  let f := CameraRig.fov camera in
  (let c' := CameraRig.frame 0 camera in
   CameraRig.position c'
     = Vector3.mk (Vector3.x p + (-4 - Vector3.x p) * 0.05)
                  (Vector3.y p + (4 - Vector3.y p) * 0.05)
                  (Vector3.z p + (6 - Vector3.z p) * 0.05)
   /\ CameraRig.fov c' = f + (40 - f) * 0.02
   /\ CameraRig.lookAt c' = Vector3.mk 0 0 0)
  /\
  (let c' := CameraRig.frame 1 camera in
   CameraRig.position c'
     = Vector3.mk (Vector3.x p + (5 - Vector3.x p) * 0.05)
                  (Vector3.y p + (1 - Vector3.y p) * 0.05)
                  (Vector3.z p + (1 - Vector3.z p) * 0.05)
   /\ CameraRig.fov c' = f + (55 - f) * 0.02
   /\ CameraRig.lookAt c' = Vector3.mk (-5) 0 0)
  /\
  CameraRig.init camera = CameraRig.mkCamera (Vector3.mk (-4) 4 6) (Vector3.mk 0 0 0) 40.
Proof.
  cbv zeta. unfold CameraRig.frame, CameraRig.targetPos, CameraRig.targetLook,
    CameraRig.targetFOV, MathUtils.lerp.
  rewrite truthy_0, truthy_1. repeat split; cbn [CameraRig.fov CameraRig.position CameraRig.lookAt]; lra.
Qed.

(** ** C6: the camera under a constant target *)

Section Lerp.

Variable alpha : R.
Hypothesis alpha_range : 0 < alpha < 1.

(** After a step the error is the old error times [1 - alpha]. *)
Lemma lerp_error (x t : R) :
  MathUtils.lerp x t alpha - t = (1 - alpha) * (x - t).
Proof using Type. unfold MathUtils.lerp. ring. Qed.

Lemma lerp_closer (x t : R) :
  Rabs (MathUtils.lerp x t alpha - t) <= Rabs (x - t).
Proof using alpha_range.
  rewrite lerp_error, Rabs_mult, (Rabs_pos_eq (1 - alpha)) by lra.
  pose proof (Rabs_pos (x - t)). nra.
Qed.

Lemma lerp_no_overshoot (x t : R) :
  (x <= t -> MathUtils.lerp x t alpha <= t)
  /\ (t <= x -> t <= MathUtils.lerp x t alpha).
Proof using alpha_range.
  pose proof (lerp_error x t). split; intros; nra.
Qed.

Lemma vector_lerp_error (a v : Vector3.t) :
  Vector3.sub (Vector3.lerp a v alpha) v
  = Vector3.multiplyScalar (Vector3.sub a v) (1 - alpha).
Proof using Type.
  unfold Vector3.sub, Vector3.lerp, Vector3.multiplyScalar. cbn. f_equal; ring.
Qed.

End Lerp.

Lemma length_multiplyScalar (v : Vector3.t) (s : R) :
  0 <= s -> Vector3.length (Vector3.multiplyScalar v s) = s * Vector3.length v.
Proof.
  intros Hs. unfold Vector3.length, Vector3.multiplyScalar. cbn.
  replace (Vector3.x v * s * (Vector3.x v * s) + Vector3.y v * s * (Vector3.y v * s)
           + Vector3.z v * s * (Vector3.z v * s))
    with ((s * s) * (Vector3.x v * Vector3.x v + Vector3.y v * Vector3.y v
                     + Vector3.z v * Vector3.z v)) by ring.
  rewrite sqrt_mult by nra. rewrite sqrt_square by exact Hs. reflexivity.
Qed.

Lemma frame_distance (turbo : R) (camera : CameraRig.Camera) :
  Vector3.distanceTo (CameraRig.position (CameraRig.frame turbo camera))
                     (CameraRig.targetPos turbo)
  = 0.95 * Vector3.distanceTo (CameraRig.position camera) (CameraRig.targetPos turbo).
Proof.
  unfold Vector3.distanceTo, CameraRig.frame. cbn [CameraRig.position].
  rewrite vector_lerp_error, length_multiplyScalar by lra. lra.
Qed.

Lemma frame_fov (turbo : R) (camera : CameraRig.Camera) :
  CameraRig.fov (CameraRig.frame turbo camera) - CameraRig.targetFOV turbo
  = 0.98 * (CameraRig.fov camera - CameraRig.targetFOV turbo).
Proof.
  unfold CameraRig.frame. cbn [CameraRig.fov]. rewrite lerp_error. lra.
Qed.

Lemma frames_S (turbo : R) (n : nat) (camera : CameraRig.Camera) :
  CameraRig.frames turbo (S n) camera
  = CameraRig.frame turbo (CameraRig.frames turbo n camera).
Proof. reflexivity. Qed.

Lemma frames_distance (turbo : R) (n : nat) (camera : CameraRig.Camera) :
  Vector3.distanceTo (CameraRig.position (CameraRig.frames turbo n camera))
                     (CameraRig.targetPos turbo)
  = 0.95 ^ n * Vector3.distanceTo (CameraRig.position camera) (CameraRig.targetPos turbo).
Proof.
  induction n as [|n IH].
  - cbn. lra.
  - rewrite frames_S, frame_distance, IH. cbn [pow]. ring.
Qed.

Lemma frames_fov (turbo : R) (n : nat) (camera : CameraRig.Camera) :
  CameraRig.fov (CameraRig.frames turbo n camera) - CameraRig.targetFOV turbo
  = 0.98 ^ n * (CameraRig.fov camera - CameraRig.targetFOV turbo).
Proof.
  induction n as [|n IH].
  - cbn. lra.
  - rewrite frames_S, frame_fov, IH. cbn [pow]. ring.
Qed.

(** A geometric sequence with ratio in (0, 1) falls under any bound. *)
Lemma geometric_small (q d eps : R) :
  0 < q < 1 -> 0 <= d -> 0 < eps ->
  exists N : nat, forall n : nat, (N <= n)%nat -> q ^ n * d < eps.
Proof.
  intros Hq Hd He.
  assert (Hy : 0 < eps / (d + 1)) by (apply Rdiv_lt_0_compat; lra).
  destruct (pow_lt_1_zero q) with (y := eps / (d + 1)) as [N HN];
    [rewrite Rabs_pos_eq; lra | exact Hy |].
  exists N. intros n Hn. specialize (HN n Hn).
  assert (Hp : 0 < q ^ n) by (apply pow_lt; lra).
  rewrite Rabs_pos_eq in HN by lra.
  assert (Hm : q ^ n * (d + 1) < eps).
  { apply (Rmult_lt_compat_r (d + 1)) in HN; [|lra].
    replace (eps / (d + 1) * (d + 1)) with eps in HN by (field; lra). exact HN. }
  nra.
Qed.

Lemma same_side_step (alpha start t x : R) :
  0 < alpha < 1 -> same_side start t x -> same_side start t (x + (t - x) * alpha).
Proof. unfold same_side. intros Ha [H1 H2]. split; intros H; nra. Qed.

Lemma same_side_lerp (alpha start t x : R) :
  0 < alpha < 1 -> same_side start t x -> same_side start t (MathUtils.lerp x t alpha).
Proof.
  intros Ha H. replace (MathUtils.lerp x t alpha) with (x + (t - x) * alpha)
    by (unfold MathUtils.lerp; ring).
  apply same_side_step; assumption.
Qed.

Lemma same_side_refl (start t : R) : same_side start t start.
Proof. unfold same_side. tauto. Qed.

Lemma frames_same_side (turbo : R) (n : nat) (camera : CameraRig.Camera) :
  let c := CameraRig.frames turbo n camera in
  let p0 := CameraRig.position camera in
  let T := CameraRig.targetPos turbo in
  same_side (Vector3.x p0) (Vector3.x T) (Vector3.x (CameraRig.position c))
  /\ same_side (Vector3.y p0) (Vector3.y T) (Vector3.y (CameraRig.position c))
  /\ same_side (Vector3.z p0) (Vector3.z T) (Vector3.z (CameraRig.position c))
  /\ same_side (CameraRig.fov camera) (CameraRig.targetFOV turbo) (CameraRig.fov c).
Proof.
  cbv zeta. induction n as [|n (Hx & Hy & Hz & Hf)].
  - cbn. split; [|split; [|split]]; apply same_side_refl.
  - rewrite frames_S. unfold CameraRig.frame at 1 2 3 4.
    cbn [CameraRig.position CameraRig.fov Vector3.lerp Vector3.x Vector3.y Vector3.z].
    split; [|split; [|split]]; try (apply same_side_step; [lra | assumption]).
    apply same_side_lerp; [lra | assumption].
Qed.

(** C6. Under a turbo flag that stays the same, from any camera state: the
    distance of the position to its target and the distance of the field of
    view to its target fall below any positive bound after enough frames;
    neither distance grows from one frame to the next; and no coordinate and
    no field of view passes its target.  The same holds for one step of
    either interpolation with any factor strictly between 0 and 1. *)
Theorem camera_converges (turbo : R) (camera : CameraRig.Camera) :
  let T := CameraRig.targetPos turbo in
  let F := CameraRig.targetFOV turbo in
  let cam := fun n => CameraRig.frames turbo n camera in
  (forall eps : R, 0 < eps ->
     exists N : nat, forall n : nat, (N <= n)%nat ->
       Vector3.distanceTo (CameraRig.position (cam n)) T < eps
       /\ Rabs (CameraRig.fov (cam n) - F) < eps)
  /\ (forall n : nat,
        Vector3.distanceTo (CameraRig.position (cam (S n))) T
          <= Vector3.distanceTo (CameraRig.position (cam n)) T
        /\ Rabs (CameraRig.fov (cam (S n)) - F) <= Rabs (CameraRig.fov (cam n) - F))
  /\ (forall n : nat,
        same_side (Vector3.x (CameraRig.position camera)) (Vector3.x T)
                  (Vector3.x (CameraRig.position (cam n)))
        /\ same_side (Vector3.y (CameraRig.position camera)) (Vector3.y T)
                     (Vector3.y (CameraRig.position (cam n)))
        /\ same_side (Vector3.z (CameraRig.position camera)) (Vector3.z T)
                     (Vector3.z (CameraRig.position (cam n)))
        /\ same_side (CameraRig.fov camera) F (CameraRig.fov (cam n)))
  /\ (forall (alpha : R) (a v : Vector3.t) (x t : R), 0 < alpha < 1 ->
        Vector3.distanceTo (Vector3.lerp a v alpha) v <= Vector3.distanceTo a v
        /\ same_side (Vector3.x a) (Vector3.x v) (Vector3.x (Vector3.lerp a v alpha))
        /\ same_side (Vector3.y a) (Vector3.y v) (Vector3.y (Vector3.lerp a v alpha))
        /\ same_side (Vector3.z a) (Vector3.z v) (Vector3.z (Vector3.lerp a v alpha))
        /\ Rabs (MathUtils.lerp x t alpha - t) <= Rabs (x - t)
        /\ same_side x t (MathUtils.lerp x t alpha)).
Proof.
  cbv zeta. split; [|split; [|split]].
  - intros eps He.
    destruct (geometric_small 0.95
                (Vector3.distanceTo (CameraRig.position camera) (CameraRig.targetPos turbo))
                eps) as [N1 H1]; [lra | apply length_nonneg | exact He |].
    destruct (geometric_small 0.98
                (Rabs (CameraRig.fov camera - CameraRig.targetFOV turbo))
                eps) as [N2 H2]; [lra | apply Rabs_pos | exact He |].
    exists (Nat.max N1 N2). intros n Hn. split.
    + rewrite frames_distance. apply H1.
      eapply Nat.le_trans; [apply Nat.le_max_l | exact Hn].
    + rewrite frames_fov, Rabs_mult, (Rabs_pos_eq (0.98 ^ n)).
      * apply H2. eapply Nat.le_trans; [apply Nat.le_max_r | exact Hn].
      * apply pow_le. lra.
  - intros n. rewrite frames_S. split.
    + rewrite frame_distance.
      pose proof (length_nonneg (Vector3.sub (CameraRig.position (CameraRig.frames turbo n camera))
                                             (CameraRig.targetPos turbo))) as Hd.
      unfold Vector3.distanceTo. lra.
    + rewrite frame_fov, Rabs_mult, (Rabs_pos_eq 0.98) by lra.
      pose proof (Rabs_pos (CameraRig.fov (CameraRig.frames turbo n camera)
                            - CameraRig.targetFOV turbo)). lra.
  - intros n. apply (frames_same_side turbo n camera).
  - intros alpha a v x t Ha. split; [|split; [|split; [|split; [|split]]]].
    + unfold Vector3.distanceTo.
      rewrite vector_lerp_error, length_multiplyScalar by lra.
      pose proof (length_nonneg (Vector3.sub a v)). nra.
    + cbn. apply same_side_step; [exact Ha | apply same_side_refl].
    + cbn. apply same_side_step; [exact Ha | apply same_side_refl].
    + cbn. apply same_side_step; [exact Ha | apply same_side_refl].
    + apply lerp_closer, Ha.
    + apply same_side_lerp; [exact Ha | apply same_side_refl].
Qed.

(** From the mount position under turbo = 1: the field of view never
    exceeds 55, and some frame count brings the camera within 1/1000 of
    (5, 1, 1) and the field of view within 1/1000 of 55. *)
Lemma camera_converges_witness :
  let camera := CameraRig.init (CameraRig.mkCamera (Vector3.mk 0 0 0) (Vector3.mk 0 0 0) 50) in
  (exists N : nat, forall n : nat, (N <= n)%nat ->
     Vector3.distanceTo (CameraRig.position (CameraRig.frames 1 n camera))
                        (CameraRig.targetPos 1) < 0.001
     /\ Rabs (CameraRig.fov (CameraRig.frames 1 n camera) - CameraRig.targetFOV 1) < 0.001)
  /\ CameraRig.fov (CameraRig.frames 1 100 camera) <= 55.
Proof.
  cbv zeta.
  pose proof (camera_converges 1
    (CameraRig.init (CameraRig.mkCamera (Vector3.mk 0 0 0) (Vector3.mk 0 0 0) 50)))
    as (Hconv & _ & Hside & _).
  split.
  - apply Hconv. lra.
  - destruct (Hside 100%nat) as (_ & _ & _ & Hf & _).
    unfold CameraRig.targetFOV in *. cbn [CameraRig.init CameraRig.fov] in Hf.
    replace (40 + 1 * 15) with 55 in Hf by lra. apply Hf. lra.
Defined.

(** ** C9: environment maps alive *)

Lemma mount_envmap_inv : envmap_inv DynamicEnvMap.mount.
Proof. unfold envmap_inv. cbn. repeat split. intros h H. discriminate. Qed.

(** A frame leaves exactly the map it has just generated. *)
Lemma frame_alive (s : DynamicEnvMap.State) :
  envmap_inv s ->
  DynamicEnvMap.alive (DynamicEnvMap.frame s) = {[ DynamicEnvMap.fresh s ]}
  /\ DynamicEnvMap.previousEnvMap (DynamicEnvMap.frame s) = Some (DynamicEnvMap.fresh s)
  /\ DynamicEnvMap.fresh (DynamicEnvMap.frame s) = S (DynamicEnvMap.fresh s)
  /\ DynamicEnvMap.pmrem (DynamicEnvMap.frame s) = DynamicEnvMap.pmrem s.
Proof.
  intros (Ha & Hf & _). unfold DynamicEnvMap.frame, DynamicEnvMap.fromScene,
    DynamicEnvMap.disposePrevious, DynamicEnvMap.dispose, DynamicEnvMap.setPrevious.
  cbn. destruct (DynamicEnvMap.previousEnvMap s) as [h|] eqn:Hp; cbn.
  - specialize (Hf h eq_refl). rewrite Ha. repeat split.
    apply set_eq. intros k. rewrite elem_of_difference, elem_of_union, !elem_of_singleton.
    split; [tauto|]. intros ->. split; [tauto|]. lia.
  - rewrite Ha. repeat split. apply set_eq. intros k.
    rewrite elem_of_union, elem_of_singleton, elem_of_empty. tauto.
Qed.

Lemma frame_envmap_inv (s : DynamicEnvMap.State) :
  envmap_inv s -> envmap_inv (DynamicEnvMap.frame s).
Proof.
  intros H. destruct (frame_alive s H) as (Ha & Hp & Hf & Hg).
  destruct H as (_ & _ & Hpm).
  unfold envmap_inv. rewrite Ha, Hp, Hf, Hg. repeat split.
  - intros h [= <-]. lia.
  - exact Hpm.
Qed.

Lemma frames_envmap_inv (n : nat) : envmap_inv (DynamicEnvMap.frames n).
Proof.
  unfold DynamicEnvMap.frames. induction n as [|n IH].
  - apply mount_envmap_inv.
  - cbn [Nat.iter]. apply frame_envmap_inv, IH.
Qed.

(** C9. After any number of frames from mount at most one generated
    environment map is alive.  Within the next frame the new map is produced
    first, which makes at most two alive, and the previous one is disposed
    right after, which leaves the new one alone.  The cleanup run at unmount
    leaves no map alive and the generator disposed. *)
Theorem one_envmap_alive (n : nat) :
  let s := DynamicEnvMap.frames n in
  (size (DynamicEnvMap.alive s) <= 1)%nat
  /\ (let '(envMap, s1) := DynamicEnvMap.fromScene s in
      (size (DynamicEnvMap.alive s1) <= 2)%nat
      /\ envMap ∈ DynamicEnvMap.alive s1
      /\ DynamicEnvMap.alive (DynamicEnvMap.disposePrevious s1) = {[ envMap ]}
      /\ DynamicEnvMap.frame s = DynamicEnvMap.setPrevious envMap (DynamicEnvMap.disposePrevious s1))
  /\ (forall h : nat, DynamicEnvMap.previousEnvMap s = Some h ->
        h ∈ DynamicEnvMap.alive s /\ h ∉ DynamicEnvMap.alive (DynamicEnvMap.frame s))
  /\ size (DynamicEnvMap.alive (DynamicEnvMap.frame s)) = 1%nat
  /\ DynamicEnvMap.alive (DynamicEnvMap.cleanup s) = ∅
  /\ DynamicEnvMap.pmrem (DynamicEnvMap.cleanup s) = false.
Proof.
  cbv zeta. pose proof (frames_envmap_inv n) as Hinv.
  set (s := DynamicEnvMap.frames n) in *.
  destruct (frame_alive s Hinv) as (Hfa & _).
  destruct Hinv as (Ha & Hf & Hpm).
  split; [|split; [|split; [|split; [|split]]]].
  - rewrite Ha. destruct (DynamicEnvMap.previousEnvMap s).
    + rewrite size_singleton. lia.
    + rewrite size_empty. lia.
  - unfold DynamicEnvMap.fromScene. cbn [DynamicEnvMap.alive].
    split; [|split; [|split]].
    + rewrite size_union_alt, size_singleton.
      assert (size (DynamicEnvMap.alive s ∖ {[DynamicEnvMap.fresh s]}) <= 1)%nat; [|lia].
      etrans; [apply subseteq_size, subseteq_difference_l; reflexivity|].
      rewrite Ha. destruct (DynamicEnvMap.previousEnvMap s).
      * rewrite size_singleton. lia.
      * rewrite size_empty. lia.
    + apply elem_of_union_l, elem_of_singleton. reflexivity.
    + exact Hfa.
    + reflexivity.
  - intros h Hh. rewrite Hfa, Ha, Hh. specialize (Hf h Hh).
    rewrite !elem_of_singleton. split; [reflexivity | lia].
  - rewrite Hfa. apply size_singleton.
  - unfold DynamicEnvMap.cleanup, DynamicEnvMap.disposePrevious, DynamicEnvMap.dispose.
    cbn. destruct (DynamicEnvMap.previousEnvMap s) as [h|]; cbn; rewrite Ha.
    + apply set_eq. intros k.
      rewrite elem_of_difference, elem_of_singleton, elem_of_empty. tauto.
    + reflexivity.
  - reflexivity.
Qed.

(** * Further properties of the code *)

(** ** The springs of the controller over many frames *)

Lemma spring_energy_step (k d t : R) (s : R * R) :
  spring_energy k d t (spring k d t s) = d * spring_energy k d t s.
Proof. destruct s as [v a]. unfold spring_energy, spring. ring. Qed.

Lemma spring_energy_iter (k d t : R) (n : nat) (s : R * R) :
  spring_energy k d t (Nat.iter n (spring k d t) s) = d ^ n * spring_energy k d t s.
Proof.
  induction n as [|n IH]; [cbn; ring|].
  rewrite Nat.iter_succ, spring_energy_step, IH. cbn [pow]. ring.
Qed.

(** For an oscillating spring the energy bounds the square of the error. *)
Lemma spring_energy_error (k d t : R) (s : R * R) :
  0 < d ->
  (4 * (d * d * k) - (1 - d - d * k) * (1 - d - d * k)) * ((fst s - t) * (fst s - t))
  <= 4 * d * spring_energy k d t s.
Proof.
  intros Hd. destruct s as [v a]. unfold spring_energy. cbn [fst].
  pose proof (Rle_0_sqr (2 * d * a + (1 - d - d * k) * (v - t))) as Hsq.
  unfold Rsqr in Hsq. nra.
Qed.

Lemma spring_energy_nonneg (k d t : R) (s : R * R) :
  0 < d -> oscillating k d -> 0 <= spring_energy k d t s.
Proof.
  intros Hd Ho. pose proof (spring_energy_error k d t s Hd) as H.
  unfold oscillating in Ho.
  pose proof (Rle_0_sqr (fst s - t)) as Hsq. unfold Rsqr in Hsq. nra.
Qed.

Lemma square_lt_abs (x eps : R) : 0 < eps -> x * x < eps * eps -> Rabs x < eps.
Proof.
  intros He H. unfold Rabs. destruct (Rcase_abs x); nra.
Qed.

(** An oscillating damped spring with a fixed target reaches any
    neighbourhood of the target and stays there. *)
Lemma spring_converges (k d t : R) (s : R * R) (eps : R) :
  0 < d < 1 -> oscillating k d -> 0 < eps ->
  exists N : nat, forall n : nat, (N <= n)%nat ->
    Rabs (fst (Nat.iter n (spring k d t) s) - t) < eps.
Proof.
  intros Hd Ho He. unfold oscillating in Ho.
  set (c := 4 * (d * d * k) - (1 - d - d * k) * (1 - d - d * k)) in *.
  assert (Hc : 0 < c) by (unfold c; lra).
  pose proof (spring_energy_nonneg k d t s (proj1 Hd) Ho) as HV.
  destruct (geometric_small d (4 * d * spring_energy k d t s) (c * (eps * eps)))
    as [N HN]; [exact Hd | nra | apply Rmult_lt_0_compat; nra |].
  exists N. intros n Hn. specialize (HN n Hn).
  apply square_lt_abs; [exact He|].
  pose proof (spring_energy_error k d t (Nat.iter n (spring k d t) s) (proj1 Hd)) as Hb.
  fold c in Hb. rewrite spring_energy_iter in Hb.
  set (e := fst (Nat.iter n (spring k d t) s) - t) in *.
  assert (c * (e * e) < c * (eps * eps)) by nra.
  apply (Rmult_lt_reg_l c); assumption.
Qed.

(** The yaw spring with a fixed target: a step shrinks the slack by at
    least three quarters of a percent. *)
Lemma yaw_slack_step (t : R) (s : R * R) :
  yaw_slack t (spring 0.01 0.75 t s) <= 0.9925 * yaw_slack t s.
Proof.
  destruct s as [v a]. unfold yaw_slack, spring.
  set (w := v - t + 4 * a). set (e := v - t).
  assert (He : Rabs e <= Rmax (Rabs e) (Rabs w)) by apply Rmax_l.
  assert (Hw : Rabs w <= Rmax (Rabs e) (Rabs w)) by apply Rmax_r.
  set (m := Rmax (Rabs e) (Rabs w)) in *.
  replace (v + (a + (t - v) * 0.01) * 0.75 - t) with (0.805 * e + 0.1875 * w)
    by (unfold e, w; lra).
  replace (0.805 * e + 0.1875 * w + 4 * ((a + (t - v) * 0.01) * 0.75))
    with (0.025 * e + 0.9375 * w) by (unfold e, w; lra).
  clearbody m. apply Rmax_lub.
  - revert He Hw. unfold Rabs.
    destruct (Rcase_abs e), (Rcase_abs w), (Rcase_abs (0.805 * e + 0.1875 * w)); intros; lra.
  - revert He Hw. unfold Rabs.
    destruct (Rcase_abs e), (Rcase_abs w), (Rcase_abs (0.025 * e + 0.9375 * w)); intros; lra.
Qed.

Lemma yaw_slack_iter (t : R) (n : nat) (s : R * R) :
  Rabs (fst (Nat.iter n (spring 0.01 0.75 t) s) - t) <= 0.9925 ^ n * yaw_slack t s.
Proof.
  assert (H : yaw_slack t (Nat.iter n (spring 0.01 0.75 t) s) <= 0.9925 ^ n * yaw_slack t s).
  { induction n as [|n IH]; [cbn; lra|].
    rewrite Nat.iter_succ. etransitivity; [apply yaw_slack_step|].
    cbn [pow]. nra. }
  etransitivity; [|exact H].
  destruct (Nat.iter n (spring 0.01 0.75 t) s) as [v a]. unfold yaw_slack. cbn [fst].
  apply Rmax_l.
Qed.

Lemma yaw_slack_nonneg (t : R) (s : R * R) : 0 <= yaw_slack t s.
Proof.
  destruct s as [v a]. unfold yaw_slack.
  etransitivity; [apply Rabs_pos | apply Rmax_l].
Qed.

Lemma yaw_converges (t : R) (s : R * R) (eps : R) :
  0 < eps ->
  exists N : nat, forall n : nat, (N <= n)%nat ->
    Rabs (fst (Nat.iter n (spring 0.01 0.75 t) s) - t) < eps.
Proof.
  intros He.
  destruct (geometric_small 0.9925 (yaw_slack t s) eps) as [N HN];
    [lra | apply yaw_slack_nonneg | exact He |].
  exists N. intros n Hn. eapply Rle_lt_trans; [apply yaw_slack_iter | apply HN, Hn].
Qed.

Lemma steer_synced (mp : Vector3.t) (turbo : R) (ship : Group) (r : Refs) :
  ship_synced (steer mp turbo ship r).
Proof.
  unfold ship_synced, steer.
  destruct (Rlt_dec 0 turbo); destruct (truthy turbo);
    (eexists; split; [reflexivity|]; cbn; repeat split).
Qed.

Lemma frame_synced (mp : Vector3.t) (turbo : R) (ship : Group) (r : Refs) :
  spaceshipRef r = Some ship -> ship_synced (frame mp turbo r).
Proof. intros H. rewrite (frame_loaded _ _ _ _ H). apply steer_synced. Qed.

Lemma synced_loaded (r : Refs) :
  ship_synced r -> exists ship, spaceshipRef r = Some ship.
Proof. intros (ship & H & _). exists ship. exact H. Qed.

(** Frames in turbo mode are steps of the three springs toward 0, whatever
    the pointers. *)
Lemma turbo_frames_springs (mps : list Vector3.t) (ship : Group) (r : Refs) :
  spaceshipRef r = Some ship ->
  let r' := fold_left step (turbo_frames mps) r in
  let n := List.length mps in
  (translateY r', translateAcceleration r')
    = Nat.iter n (spring 0.01 0.95 0) (translateY r, translateAcceleration r)
  /\ (pitchAngle r', pitchAcceleration r')
    = Nat.iter n (spring 0.01 0.85 0) (pitchAngle r, pitchAcceleration r)
  /\ (angleZ r', angleAcceleration r')
    = Nat.iter n (spring 0.01 0.75 0) (angleZ r, angleAcceleration r)
  /\ (mps <> [] -> ship_synced r').
Proof.
  cbv zeta. revert ship r. induction mps as [|mp mps IH]; intros ship r H.
  - cbn. repeat split. intros Hne. congruence.
  - cbn [turbo_frames map fold_left step List.length].
    destruct (synced_loaded _ (frame_synced mp 1 ship r H)) as [ship1 H1].
    destruct (IH ship1 _ H1) as (Hv & Hp & Hy & Hs).
    fold (turbo_frames mps). split; [|split; [|split]].
    + rewrite Hv, Nat.iter_succ_r, (frame_loaded _ _ _ _ H), steer_turbo. reflexivity.
    + rewrite Hp, Nat.iter_succ_r, (frame_loaded _ _ _ _ H), steer_turbo. reflexivity.
    + rewrite Hy, Nat.iter_succ_r, (frame_loaded _ _ _ _ H), steer_turbo. reflexivity.
    + intros _. destruct mps as [|mp' mps'].
      * cbn. apply (frame_synced _ _ _ _ H).
      * apply Hs. discriminate.
Qed.

(** Manual frames under one pointer are steps of the vertical spring toward
    boundedY and of the pitch spring toward targetPitch. *)
Lemma manual_frames_springs (mp : Vector3.t) (n : nat) (ship : Group) (r : Refs) :
  spaceshipRef r = Some ship ->
  let r' := fold_left step (repeat (Frame mp 0) n) r in
  (translateY r', translateAcceleration r')
    = Nat.iter n (spring 0.002 0.95 (boundedY mp)) (translateY r, translateAcceleration r)
  /\ (pitchAngle r', pitchAcceleration r')
    = Nat.iter n (spring 0.01 0.85 (targetPitch mp)) (pitchAngle r, pitchAcceleration r)
  /\ (n <> 0%nat -> ship_synced r').
Proof.
  cbv zeta. revert ship r. induction n as [|n IH]; intros ship r H.
  - cbn. repeat split. intros Hne. congruence.
  - cbn [repeat fold_left step].
    destruct (synced_loaded _ (frame_synced mp 0 ship r H)) as [ship1 H1].
    destruct (IH ship1 _ H1) as (Hv & Hp & Hs).
    split; [|split].
    + rewrite Hv, Nat.iter_succ_r, (frame_loaded _ _ _ _ H), steer_manual. reflexivity.
    + rewrite Hp, Nat.iter_succ_r, (frame_loaded _ _ _ _ H), steer_manual. reflexivity.
    + intros _. destruct n as [|n'].
      * cbn. apply (frame_synced _ _ _ _ H).
      * apply Hs. discriminate.
Qed.

Lemma oscillating_vertical_turbo : oscillating 0.01 0.95.
Proof. unfold oscillating. lra. Qed.

Lemma oscillating_vertical_manual : oscillating 0.002 0.95.
Proof. unfold oscillating. lra. Qed.

Lemma oscillating_pitch : oscillating 0.01 0.85.
Proof. unfold oscillating. lra. Qed.

(** Clamping brings two numbers no further apart. *)
Lemma boundedPitch_close (p q : R) :
  Rabs (boundedPitch p - boundedPitch q) <= Rabs (p - q).
Proof.
  pose proof PI_RGT_0. unfold boundedPitch, Rabs.
  destruct (Rcase_abs (p - q)); decide_clamp;
    match goal with |- context [Rcase_abs ?x] => destruct (Rcase_abs x) end; lra.
Qed.

Lemma boundedPitch_0 : boundedPitch 0 = 0.
Proof. pose proof PI_RGT_0. unfold boundedPitch. decide_clamp. Qed.
(** X1. In a frame with the ship loaded the vertical spring loses exactly
    5% of its energy around its target and the pitch spring exactly 15%, in
    manual mode (targets boundedY and targetPitch of the pointer) and in
    turbo mode (targets 0); in turbo mode the slack of the yaw around 0
    shrinks by at least 0.75%.  The energies are at least a fixed multiple
    of the squared distance to the target, so no frame lets a spring swing
    wider around a target that stays where it is. *)
Theorem frame_energy_decay (mp : Vector3.t) (ship : Group) (r : Refs) :
  spaceshipRef r = Some ship ->
  (let r' := frame mp 0 r in
   spring_energy 0.002 0.95 (boundedY mp) (translateY r', translateAcceleration r')
     = 0.95 * spring_energy 0.002 0.95 (boundedY mp) (translateY r, translateAcceleration r)
   /\ spring_energy 0.01 0.85 (targetPitch mp) (pitchAngle r', pitchAcceleration r')
     = 0.85 * spring_energy 0.01 0.85 (targetPitch mp) (pitchAngle r, pitchAcceleration r))
  /\
  (let r' := frame mp 1 r in
   spring_energy 0.01 0.95 0 (translateY r', translateAcceleration r')
     = 0.95 * spring_energy 0.01 0.95 0 (translateY r, translateAcceleration r)
   /\ spring_energy 0.01 0.85 0 (pitchAngle r', pitchAcceleration r')
     = 0.85 * spring_energy 0.01 0.85 0 (pitchAngle r, pitchAcceleration r)
   /\ yaw_slack 0 (angleZ r', angleAcceleration r')
     <= 0.9925 * yaw_slack 0 (angleZ r, angleAcceleration r))
  /\
  (forall (t : R) (s : R * R),
     0.001 * ((fst s - t) * (fst s - t)) <= spring_energy 0.002 0.95 t s
     /\ 0.009 * ((fst s - t) * (fst s - t)) <= spring_energy 0.01 0.95 t s
     /\ 0.0026 * ((fst s - t) * (fst s - t)) <= spring_energy 0.01 0.85 t s).
Proof.
  intros H. split; [|split].
  - cbv zeta. rewrite (frame_loaded _ _ _ _ H), steer_manual. cbv zeta.
    cbn [translateY translateAcceleration pitchAngle pitchAcceleration].
    split; apply (spring_energy_step _ _ _ (_, _)).
  - cbv zeta. rewrite (frame_loaded _ _ _ _ H), steer_turbo. cbv zeta.
    cbn [translateY translateAcceleration pitchAngle pitchAcceleration
         angleZ angleAcceleration].
    split; [|split]; try apply (spring_energy_step _ _ _ (_, _)).
    apply (yaw_slack_step 0 (_, _)).
  - intros t s.
    pose proof (spring_energy_error 0.002 0.95 t s) as H1.
    pose proof (spring_energy_error 0.01 0.95 t s) as H2.
    pose proof (spring_energy_error 0.01 0.85 t s) as H3.
    pose proof (Rle_0_sqr (fst s - t)) as Hsq. unfold Rsqr in Hsq.
    repeat split; nra.
Qed.

Lemma frame_energy_decay_witness :
  spring_energy 0.01 0.95 0
    (translateY (frame (Vector3.mk (-3) 5 2) 1 (mkRefs (Some ship0) 1 0 0 0 0 0)),
     translateAcceleration (frame (Vector3.mk (-3) 5 2) 1 (mkRefs (Some ship0) 1 0 0 0 0 0)))
  = 0.95 * spring_energy 0.01 0.95 0 (1, 0).
Proof.
  exact (proj1 (proj1 (proj2
    (frame_energy_decay (Vector3.mk (-3) 5 2) ship0
       (mkRefs (Some ship0) 1 0 0 0 0 0) eq_refl)))).
Defined.

(** X2. Held turbo centres the ship.  From any state of the refs with the
    ship loaded, and for any positive bound, there is a number of frames
    after which the height, the pitch and the yaw of the refs, and the
    height and the rotation written to the ship, are all within the bound of
    0, whatever the pointer does during those frames. *)
Theorem turbo_recenters (ship : Group) (r : Refs) (eps : R) :
  spaceshipRef r = Some ship -> 0 < eps ->
  exists N : nat, forall mps : list Vector3.t, (N <= List.length mps)%nat ->
    let r' := fold_left step (turbo_frames mps) r in
    Rabs (translateY r') < eps
    /\ Rabs (pitchAngle r') < eps
    /\ Rabs (angleZ r') < eps
    /\ exists ship', spaceshipRef r' = Some ship'
         /\ Rabs (Vector3.y (position ship')) < eps
         /\ Rabs (rot_x (rotation ship')) < eps
         /\ Rabs (rot_z (rotation ship')) < eps.
Proof.
  intros H He.
  destruct (spring_converges 0.01 0.95 0 (translateY r, translateAcceleration r) eps)
    as [N1 H1]; [lra | apply oscillating_vertical_turbo | exact He |].
  destruct (spring_converges 0.01 0.85 0 (pitchAngle r, pitchAcceleration r) eps)
    as [N2 H2]; [lra | apply oscillating_pitch | exact He |].
  destruct (yaw_converges 0 (angleZ r, angleAcceleration r) eps He) as [N3 H3].
  exists (S (Nat.max N1 (Nat.max N2 N3))). intros mps Hn. cbv zeta.
  destruct (turbo_frames_springs mps ship r H) as (Hv & Hp & Hy & Hs).
  set (r' := fold_left step (turbo_frames mps) r) in *.
  assert (Hv' : Rabs (translateY r') < eps).
  { specialize (H1 (List.length mps)). rewrite <- Hv, Rminus_0_r in H1. apply H1. lia. }
  assert (Hp' : Rabs (pitchAngle r') < eps).
  { specialize (H2 (List.length mps)). rewrite <- Hp, Rminus_0_r in H2. apply H2. lia. }
  assert (Hy' : Rabs (angleZ r') < eps).
  { specialize (H3 (List.length mps)). rewrite <- Hy, Rminus_0_r in H3. apply H3. lia. }
  repeat split; try assumption.
  destruct Hs as (ship' & Hs & Hpy & Hrx & _ & Hrz & _).
  { destruct mps; [cbn in Hn; lia | discriminate]. }
  exists ship'. rewrite Hpy, Hrx, Hrz. repeat split; try assumption.
  eapply Rle_lt_trans; [|exact Hp'].
  pose proof (boundedPitch_close (pitchAngle r') 0) as Hc.
  rewrite boundedPitch_0, !Rminus_0_r in Hc. exact Hc.
Qed.

Lemma turbo_recenters_witness :
  exists N : nat, forall mps : list Vector3.t, (N <= List.length mps)%nat ->
    Rabs (translateY (fold_left step (turbo_frames mps)
                        (mkRefs (Some ship0) 1 0 2 0 3 0))) < 0.001.
Proof.
  destruct (turbo_recenters ship0 (mkRefs (Some ship0) 1 0 2 0 3 0) 0.001 eq_refl)
    as [N HN]; [lra|].
  exists N. intros mps Hn. exact (proj1 (HN mps Hn)).
Defined.

(** X3. A pointer that stays where it is brings the ship to it.  In manual
    mode, from any state of the refs with the ship loaded, and for any
    positive bound, there is a number of frames after which the height is
    within the bound of clamp(pointer.y, -3, 1) and the pitch written to the
    ship is within the bound of pointer.z * 0.5 clamped to 30 degrees. *)
Theorem manual_settles (mp : Vector3.t) (ship : Group) (r : Refs) (eps : R) :
  spaceshipRef r = Some ship -> 0 < eps ->
  exists N : nat, forall n : nat, (N <= n)%nat ->
    let r' := fold_left step (repeat (Frame mp 0) n) r in
    Rabs (translateY r' - clamp (Vector3.y mp) (-3) 1) < eps
    /\ Rabs (pitchAngle r' - Vector3.z mp * 0.5) < eps
    /\ exists ship', spaceshipRef r' = Some ship'
         /\ Rabs (Vector3.y (position ship') - clamp (Vector3.y mp) (-3) 1) < eps
         /\ Rabs (rot_x (rotation ship')
                  - clamp (Vector3.z mp * 0.5) (- deg 30) (deg 30)) < eps.
Proof.
  intros H He. rewrite <- boundedY_clamp, <- boundedPitch_clamp.
  change (Vector3.z mp * 0.5) with (targetPitch mp).
  destruct (spring_converges 0.002 0.95 (boundedY mp)
              (translateY r, translateAcceleration r) eps)
    as [N1 H1]; [lra | apply oscillating_vertical_manual | exact He |].
  destruct (spring_converges 0.01 0.85 (targetPitch mp)
              (pitchAngle r, pitchAcceleration r) eps)
    as [N2 H2]; [lra | apply oscillating_pitch | exact He |].
  exists (S (Nat.max N1 N2)). intros n Hn. cbv zeta.
  destruct (manual_frames_springs mp n ship r H) as (Hv & Hp & Hs).
  set (r' := fold_left step (repeat (Frame mp 0) n) r) in *.
  assert (Hv' : Rabs (translateY r' - boundedY mp) < eps).
  { specialize (H1 n). rewrite <- Hv in H1. apply H1. lia. }
  assert (Hp' : Rabs (pitchAngle r' - targetPitch mp) < eps).
  { specialize (H2 n). rewrite <- Hp in H2. apply H2. lia. }
  repeat split; try assumption.
  destruct Hs as (ship' & Hs & Hpy & Hrx & _); [lia|].
  exists ship'. rewrite Hpy, Hrx. repeat split; try assumption.
  eapply Rle_lt_trans; [apply boundedPitch_close | exact Hp'].
Qed.

Lemma manual_settles_witness :
  exists N : nat, forall n : nat, (N <= n)%nat ->
    Rabs (translateY (fold_left step (repeat (Frame (Vector3.mk (-3) 5 2) 0) n)
                        (mkRefs (Some ship0) 0 0 0 0 0 0))
          - clamp 5 (-3) 1) < 0.001.
Proof.
  destruct (manual_settles (Vector3.mk (-3) 5 2) ship0 (mkRefs (Some ship0) 0 0 0 0 0 0)
              0.001 eq_refl) as [N HN]; [lra|].
  exists N. intros n Hn. exact (proj1 (HN n Hn)).
Defined.

(** X4. A manual frame leaves the six numbers of the refs as they are
    exactly when the three accumulators are 0 and the height, the pitch and
    the yaw are at their targets; a turbo frame, exactly when all six
    numbers are 0. *)
Theorem steady_state (mp : Vector3.t) (ship : Group) (r : Refs) :
  spaceshipRef r = Some ship ->
  let same r' :=
    translateY r' = translateY r /\ translateAcceleration r' = translateAcceleration r
    /\ angleZ r' = angleZ r /\ angleAcceleration r' = angleAcceleration r
    /\ pitchAngle r' = pitchAngle r /\ pitchAcceleration r' = pitchAcceleration r in
  (same (frame mp 0 r) <->
     translateAcceleration r = 0 /\ angleAcceleration r = 0 /\ pitchAcceleration r = 0
     /\ translateY r = boundedY mp
     /\ pitchAngle r = targetPitch mp
     /\ angleZ r = boundedAngle mp (translateY r))
  /\
  (same (frame mp 1 r) <->
     translateAcceleration r = 0 /\ angleAcceleration r = 0 /\ pitchAcceleration r = 0
     /\ translateY r = 0 /\ pitchAngle r = 0 /\ angleZ r = 0).
Proof.
  intros H. cbv zeta. split.
  - rewrite (frame_loaded _ _ _ _ H), steer_manual. cbn. split.
    + intros (H1 & H2 & H3 & H4 & H5 & H6).
      assert (Ht : translateY r
                   + (translateAcceleration r + (boundedY mp - translateY r) * 0.002) * 0.95
                   = translateY r) by lra.
      rewrite Ht in *. repeat split; lra.
    + intros (H1 & H2 & H3 & H4 & H5 & H6).
      assert (Ht : translateY r
                   + (translateAcceleration r + (boundedY mp - translateY r) * 0.002) * 0.95
                   = translateY r) by lra.
      rewrite Ht. repeat split; lra.
  - rewrite (frame_loaded _ _ _ _ H), steer_turbo. cbn. split.
    + intros (H1 & H2 & H3 & H4 & H5 & H6). repeat split; lra.
    + intros (H1 & H2 & H3 & H4 & H5 & H6). repeat split; lra.
Qed.

Lemma steady_state_witness :
  translateY (frame (Vector3.mk (-3) 5 2) 1 (mkRefs (Some ship0) 0 0 0 0 0 0)) = 0.
Proof.
  exact (proj1 (proj2 (proj2
    (steady_state (Vector3.mk (-3) 5 2) ship0 (mkRefs (Some ship0) 0 0 0 0 0 0) eq_refl))
    (conj eq_refl (conj eq_refl (conj eq_refl (conj eq_refl (conj eq_refl eq_refl))))))).
Defined.
(** ** The yaw target *)

(** The cosine the yaw is computed from is the height of the pointer over
    the ship divided by a positive number. *)
Lemma dirCos_quotient (mp : Vector3.t) (ty : R) :
  exists s : R,
    0 < s
    /\ dirCos mp ty = (Vector3.y mp - ty) * (1 / s)
    /\ (Vector3.length (offset mp ty) <> 0 -> s = Vector3.length (offset mp ty)).
Proof.
  unfold dirCos, dir, Vector3.normalize.
  destruct (truthy (Vector3.length (offset mp ty))) eqn:Ht.
  - exists (Vector3.length (offset mp ty)).
    pose proof (length_nonneg (offset mp ty)) as Hn.
    assert (Hl : Vector3.length (offset mp ty) <> 0).
    { intros Hl. rewrite Hl, truthy_0 in Ht. discriminate. }
    split; [lra|]. split; [|reflexivity].
    unfold Vector3.dot, Vector3.divideScalar, Vector3.multiplyScalar, offset.
    cbn [Vector3.x Vector3.y Vector3.z Vector3.sub Vector3.clone]. ring.
  - exists 1. split; [lra|]. split.
    + unfold Vector3.dot, Vector3.divideScalar, Vector3.multiplyScalar, offset.
      cbn [Vector3.x Vector3.y Vector3.z Vector3.sub Vector3.clone]. ring.
    + intros Hl. apply truthy_nonzero in Hl. congruence.
Qed.

Lemma acos_neg_gt (c : R) : c < 0 -> PI / 2 < acos c.
Proof.
  intros Hc. replace c with (- - c) by ring. rewrite acos_opp.
  pose proof (acos_pos_lt (- c)). lra.
Qed.

Lemma inv_sqrt2_facts :
  0 < sqrt 2 /\ sqrt 2 * sqrt 2 = 2 /\ 0 < 1 / sqrt 2 /\ 1 / sqrt 2 * sqrt 2 = 1.
Proof.
  assert (H2 : 0 < sqrt 2) by (apply sqrt_lt_R0; lra).
  assert (Hs : sqrt 2 * sqrt 2 = 2) by (apply sqrt_sqrt; lra).
  repeat split; try assumption.
  - unfold Rdiv. rewrite Rmult_1_l. apply Rinv_0_lt_compat, H2.
  - field. lra.
Qed.

(** The arc cosine is at most 45 degrees from 1/sqrt 2 on. *)
Lemma acos_le_PI4 (c : R) : -1 <= c <= 1 -> (acos c <= PI / 4 <-> 1 / sqrt 2 <= c).
Proof.
  intros Hc. pose proof (acos_bound c) as Hb. pose proof PI_RGT_0 as Hpi.
  pose proof (cos_acos c Hc) as Hcos. split; intros H.
  - destruct (Rle_lt_dec (1 / sqrt 2) c) as [Hle|Hlt]; [exact Hle|].
    exfalso. rewrite <- cos_PI4, <- Hcos in Hlt.
    apply cos_decreasing_0 in Hlt; lra.
  - destruct (Rle_lt_dec (acos c) (PI / 4)) as [Hle|Hlt]; [exact Hle|].
    exfalso. apply cos_decreasing_1 in Hlt; try lra.
    rewrite cos_PI4, Hcos in Hlt. lra.
Qed.

(** A quotient reaches 1/sqrt 2 when the numerator is positive and its
    square is at least half the square of the denominator. *)
Lemma quotient_ge_inv_sqrt2 (dy len h2 : R) :
  0 < len -> len * len = h2 + dy * dy -> 0 <= h2 ->
  (1 / sqrt 2 <= dy * (1 / len) <-> 0 < dy /\ h2 <= dy * dy).
Proof.
  intros Hlen Hsq Hh. destruct inv_sqrt2_facts as (Hs & Hss & Hq & Hqs).
  assert (Hi : 0 < 1 / len).
  { unfold Rdiv. rewrite Rmult_1_l. apply Rinv_0_lt_compat, Hlen. }
  assert (Hil : 1 / len * len = 1) by (field; lra).
  set (i := 1 / len) in *. set (q := 1 / sqrt 2) in *. clearbody i q.
  assert (Hqq : q * q = 1 / 2) by nra.
  split.
  - intros H.
    assert (Hd : q * len <= dy) by nra.
    assert (Hdy : 0 < dy) by nra.
    split; [exact Hdy|].
    assert (Hp : 0 <= q * len) by (apply Rmult_le_pos; lra).
    assert (Hm : (q * len) * (q * len) <= dy * dy)
      by (apply Rmult_le_compat; lra).
    replace ((q * len) * (q * len)) with ((q * q) * (len * len)) in Hm by ring.
    rewrite Hqq, Hsq in Hm. lra.
  - intros [Hdy Hle].
    assert (Hp : 0 < q * len) by (apply Rmult_lt_0_compat; lra).
    assert (Hd : q * len <= dy).
    { destruct (Rle_lt_dec (q * len) dy) as [Hok|Hbad]; [exact Hok|].
      assert (Hm : dy * dy < (q * len) * (q * len))
        by (apply Rmult_le_0_lt_compat; lra).
      replace ((q * len) * (q * len)) with ((q * q) * (len * len)) in Hm by ring.
      rewrite Hqq, Hsq in Hm. lra. }
    replace q with (q * (len * i)) by (rewrite (Rmult_comm len i), Hil; ring).
    replace (q * (len * i)) with ((q * len) * i) by ring.
    apply Rmult_le_compat_r; lra.
Qed.

Lemma offset_length_sqr (mp : Vector3.t) (ty : R) :
  Vector3.length (offset mp ty) * Vector3.length (offset mp ty)
  = (Vector3.x mp * Vector3.x mp + Vector3.z mp * Vector3.z mp)
    + (Vector3.y mp - ty) * (Vector3.y mp - ty).
Proof.
  rewrite length_sqr. unfold offset.
  cbn [Vector3.x Vector3.y Vector3.z Vector3.sub Vector3.clone]. ring.
Qed.

Lemma dirCos_ge_inv_sqrt2 (mp : Vector3.t) (ty : R) :
  1 / sqrt 2 <= dirCos mp ty
  <-> 0 < Vector3.y mp - ty
      /\ Vector3.x mp * Vector3.x mp + Vector3.z mp * Vector3.z mp
         <= (Vector3.y mp - ty) * (Vector3.y mp - ty).
Proof.
  destruct inv_sqrt2_facts as (_ & _ & Hq & _).
  destruct (Req_dec_T (Vector3.length (offset mp ty)) 0) as [H0|Hn].
  - destruct (zero_direction mp ty H0) as (_ & Hc & _).
    destruct (length_zero _ H0) as (_ & Hy & _).
    unfold offset in Hy. cbn in Hy. rewrite Hc. split; [lra | intros [Hdy _]; lra].
  - destruct (dirCos_quotient mp ty) as (s & Hs & Hc & Hl).
    rewrite Hc, (Hl Hn). pose proof (length_nonneg (offset mp ty)).
    apply quotient_ge_inv_sqrt2; [lra | apply offset_length_sqr | nra].
Qed.
Lemma dirCos_mirror (mp : Vector3.t) (ty : R) :
  dirCos (Vector3.mk (Vector3.x mp) (- Vector3.y mp) (Vector3.z mp)) (- ty)
  = - dirCos mp ty.
Proof.
  assert (Hl : Vector3.length
                 (offset (Vector3.mk (Vector3.x mp) (- Vector3.y mp) (Vector3.z mp)) (- ty))
               = Vector3.length (offset mp ty)).
  { unfold Vector3.length, offset.
    cbn [Vector3.x Vector3.y Vector3.z Vector3.sub Vector3.clone]. f_equal. ring. }
  unfold dirCos, dir, Vector3.normalize. rewrite Hl.
  unfold Vector3.dot, Vector3.divideScalar, Vector3.multiplyScalar, offset.
  cbn [Vector3.x Vector3.y Vector3.z Vector3.sub Vector3.clone]. ring.
Qed.

Lemma dirCos_le_neg_inv_sqrt2 (mp : Vector3.t) (ty : R) :
  dirCos mp ty <= - (1 / sqrt 2)
  <-> Vector3.y mp - ty < 0
      /\ Vector3.x mp * Vector3.x mp + Vector3.z mp * Vector3.z mp
         <= (Vector3.y mp - ty) * (Vector3.y mp - ty).
Proof.
  pose proof (dirCos_ge_inv_sqrt2
                (Vector3.mk (Vector3.x mp) (- Vector3.y mp) (Vector3.z mp)) (- ty)) as H.
  rewrite dirCos_mirror in H. cbn [Vector3.x Vector3.y Vector3.z] in H.
  replace ((- Vector3.y mp - - ty) * (- Vector3.y mp - - ty))
    with ((Vector3.y mp - ty) * (Vector3.y mp - ty)) in H by ring.
  split.
  - intros Hc. destruct (proj1 H) as [H1 H2]; [lra|]. split; [lra | exact H2].
  - intros [H1 H2]. assert (1 / sqrt 2 <= - dirCos mp ty); [|lra].
    apply (proj2 H). split; [lra | exact H2].
Qed.

(** X5. The yaw target follows the height of the pointer over the ship.
    It is negative when the pointer is above the ship, positive when it is
    below and 0 when they are level.  It is at its limit of 45 degrees
    exactly when the pointer is at least as far above or below the ship as
    it is away from the ship's vertical axis. *)
Theorem yaw_target_shape (mp : Vector3.t) (ty : R) :
  let dy := Vector3.y mp - ty in
  let h2 := Vector3.x mp * Vector3.x mp + Vector3.z mp * Vector3.z mp in
  (0 < dy -> boundedAngle mp ty < 0)
  /\ (dy < 0 -> 0 < boundedAngle mp ty)
  /\ (dy = 0 -> boundedAngle mp ty = 0)
  /\ (boundedAngle mp ty = - deg 45 <-> 0 < dy /\ h2 <= dy * dy)
  /\ (boundedAngle mp ty = deg 45 <-> dy < 0 /\ h2 <= dy * dy).
Proof.
  cbv zeta. rewrite deg_45. pose proof PI_RGT_0 as Hpi.
  destruct (dirCos_quotient mp ty) as (s & Hs & Hc & _).
  assert (Hi : 0 < 1 / s).
  { unfold Rdiv. rewrite Rmult_1_l. apply Rinv_0_lt_compat, Hs. }
  pose proof (dirCos_range mp ty) as Hr.
  pose proof (acos_le_PI4 (dirCos mp ty) Hr) as Hlo.
  assert (Hr' : -1 <= - dirCos mp ty <= 1) by lra.
  pose proof (acos_le_PI4 (- dirCos mp ty) Hr') as Hhi.
  rewrite acos_opp in Hhi.
  pose proof (dirCos_ge_inv_sqrt2 mp ty) as Hge.
  pose proof (dirCos_le_neg_inv_sqrt2 mp ty) as Hle.
  unfold boundedAngle, angle.
  split; [|split; [|split; [|split]]].
  - intros Hdy. assert (Hpos : 0 < dirCos mp ty) by (rewrite Hc; nra).
    pose proof (acos_pos_lt _ Hpos). decide_clamp.
  - intros Hdy. assert (Hneg : dirCos mp ty < 0) by (rewrite Hc; nra).
    pose proof (acos_neg_gt _ Hneg). decide_clamp.
  - intros Hdy. rewrite Hc, Hdy, Rmult_0_l, acos_0. decide_clamp.
  - rewrite <- Hge, <- Hlo. split.
    + decide_clamp.
    + intros H. decide_clamp.
  - rewrite <- Hle. split.
    + intros H. assert (PI - acos (dirCos mp ty) <= PI / 4) by (revert H; decide_clamp).
      apply Hhi in H0. lra.
    + intros H. assert (PI - acos (dirCos mp ty) <= PI / 4) by (apply Hhi; lra).
      decide_clamp.
Qed.

(** ** Keys and pointer events *)

Lemma handle_turbo_other (i : Experience.Input) (s : Experience.State) :
  is_space_down i = false -> is_space_up i = false ->
  Experience.turbo (Experience.handle s i) = Experience.turbo s.
Proof.
  destruct i as [code|code|p]; cbn; intros Hd Hu.
  - unfold Experience.handleKeyDown. rewrite Hd. reflexivity.
  - unfold Experience.handleKeyUp. rewrite Hu. reflexivity.
  - unfold Experience.handlePointerMove.
    destruct (MousePlane.handlePointerMove _ _); reflexivity.
Qed.

Lemma fold_turbo_other (l : list Experience.Input) (s : Experience.State) :
  forallb (fun i => negb (is_space_down i) && negb (is_space_up i)) l = true ->
  Experience.turbo (fold_left Experience.handle l s) = Experience.turbo s.
Proof.
  revert s. induction l as [|i l IH]; intros s H; [reflexivity|].
  cbn in H. apply andb_prop in H. destruct H as [Hi Hl].
  apply andb_prop in Hi. destruct Hi as [Hd Hu].
  apply negb_true_iff in Hd, Hu.
  cbn [fold_left]. rewrite (IH _ Hl). apply handle_turbo_other; assumption.
Qed.

(** X6. The turbo flag is decided by the last Space key event: it is 1 after
    a Space key-down and 0 after a Space key-up, whatever other keys and
    pointer events came before or follow, and 0 when no Space key event has
    happened. *)
Theorem last_space_key_decides (pre post : list Experience.Input) :
  forallb (fun i => negb (is_space_down i) && negb (is_space_up i)) post = true ->
  Experience.turbo (Experience.after (pre ++ Experience.KeyDown "Space" :: post)) = 1
  /\ Experience.turbo (Experience.after (pre ++ Experience.KeyUp "Space" :: post)) = 0
  /\ Experience.turbo (Experience.after post) = 0.
Proof.
  intros H. unfold Experience.after. rewrite !fold_left_app. cbn [fold_left].
  rewrite !(fold_turbo_other post _ H). repeat split.
Qed.

Lemma last_space_key_decides_witness :
  Experience.turbo
    (Experience.after
       ([Experience.KeyUp "Space"; Experience.PointerMove (Vector3.mk 1 2 3)]
        ++ Experience.KeyDown "Space"
        :: [Experience.KeyDown "Enter"; Experience.PointerMove (Vector3.mk 4 5 6)])) = 1.
Proof.
  exact (proj1 (last_space_key_decides
    [Experience.KeyUp "Space"; Experience.PointerMove (Vector3.mk 1 2 3)]
    [Experience.KeyDown "Enter"; Experience.PointerMove (Vector3.mk 4 5 6)] eq_refl)).
Defined.

Lemma handle_turbo_held (i : Experience.Input) (s : Experience.State) :
  Experience.turbo s = 1 -> is_space_up i = false -> Experience.handle s i = s.
Proof.
  intros Ht Hu. destruct s as [t p]. cbn in Ht. subst t.
  destruct i as [code|code|q]; cbn.
  - unfold Experience.handleKeyDown. destruct (String.eqb code "Space"); reflexivity.
  - cbn in Hu. unfold Experience.handleKeyUp. rewrite Hu. reflexivity.
  - unfold Experience.handlePointerMove, MousePlane.handlePointerMove. cbn.
    decide_flag. reflexivity.
Qed.

Lemma fold_turbo_held (l : list Experience.Input) (s : Experience.State) :
  Experience.turbo s = 1 -> forallb (fun i => negb (is_space_up i)) l = true ->
  fold_left Experience.handle l s = s.
Proof.
  intros Ht H. induction l as [|i l IH]; [reflexivity|].
  cbn in H. apply andb_prop in H. destruct H as [Hi Hl].
  apply negb_true_iff in Hi.
  cbn [fold_left]. rewrite (handle_turbo_held i s Ht Hi). apply IH, Hl.
Qed.

(** X7. While Space is held nothing the user does reaches the state: from
    the key-down to the key-up of Space every pointer event and every other
    key is dropped, so after the key-up the point steered by is the one from
    before the key-down and the flag is 0. *)
Theorem turbo_episode_keeps_pointer (pre during : list Experience.Input) :
  forallb (fun i => negb (is_space_up i)) during = true ->
  Experience.after (pre ++ Experience.KeyDown "Space" :: during)
    = Experience.setTurbo 1 (Experience.after pre)
  /\ Experience.after (pre ++ Experience.KeyDown "Space" :: during
                       ++ [Experience.KeyUp "Space"])
    = Experience.setTurbo 0 (Experience.after pre)
  /\ Experience.mousePoint
       (Experience.after (pre ++ Experience.KeyDown "Space" :: during
                          ++ [Experience.KeyUp "Space"]))
    = Experience.mousePoint (Experience.after pre).
Proof.
  intros H. unfold Experience.after.
  assert (Hheld : forall s,
             fold_left Experience.handle (Experience.KeyDown "Space" :: during) s
             = Experience.setTurbo 1 s).
  { intros s. cbn [fold_left Experience.handle]. unfold Experience.handleKeyDown. cbn.
    apply fold_turbo_held; [reflexivity | exact H]. }
  split; [|split].
  - rewrite fold_left_app. apply Hheld.
  - rewrite fold_left_app, app_comm_cons, fold_left_app, Hheld. reflexivity.
  - rewrite fold_left_app, app_comm_cons, fold_left_app, Hheld. reflexivity.
Qed.

Lemma turbo_episode_keeps_pointer_witness :
  Experience.mousePoint
    (Experience.after
       ([Experience.PointerMove (Vector3.mk 1 2 3)]
        ++ Experience.KeyDown "Space"
        :: [Experience.PointerMove (Vector3.mk 4 5 6); Experience.KeyDown "Space"]
        ++ [Experience.KeyUp "Space"]))
  = Experience.mousePoint (Experience.after [Experience.PointerMove (Vector3.mk 1 2 3)]).
Proof.
  exact (proj2 (proj2 (turbo_episode_keeps_pointer
    [Experience.PointerMove (Vector3.mk 1 2 3)]
    [Experience.PointerMove (Vector3.mk 4 5 6); Experience.KeyDown "Space"] eq_refl))).
Defined.

(** ** The application as a whole *)

Lemma app_experience (es : list App.Event) (s : App.State) :
  App.experience (fold_left App.step es s)
  = fold_left Experience.handle (inputs_of es) (App.experience s).
Proof.
  revert s. induction es as [|e es IH]; intros s; [reflexivity|].
  cbn [fold_left inputs_of flat_map]. fold (inputs_of es). rewrite IH.
  destruct e; reflexivity.
Qed.

Lemma app_turbo (camera0 : CameraRig.Camera) (es : list App.Event) :
  Experience.turbo (App.experience (App.run camera0 es)) = 0
  \/ Experience.turbo (App.experience (App.run camera0 es)) = 1.
Proof.
  unfold App.run. rewrite app_experience.
  apply (experience_invariant (inputs_of es)).
Qed.

Lemma boundedAngle_origin : boundedAngle (Vector3.mk 0 0 0) 0 = 0.
Proof.
  apply zero_direction. unfold Vector3.length, offset. cbn.
  replace (_ + _ + _) with 0 by lra. apply sqrt_0.
Qed.

Lemma boundedY_origin : boundedY (Vector3.mk 0 0 0) = 0.
Proof. unfold boundedY. cbn. decide_clamp. Qed.

(** At rest under the initial point a frame changes no number of the
    refs. *)
Lemma frame_rest (turbo : R) (g : option Group) :
  turbo = 0 \/ turbo = 1 ->
  exists g', frame (Vector3.mk 0 0 0) turbo (mkRefs g 0 0 0 0 0 0)
             = mkRefs g' 0 0 0 0 0 0.
Proof.
  intros Ht. unfold frame. cbn [spaceshipRef]. destruct g as [ship|].
  - destruct Ht as [-> | ->].
    + rewrite steer_manual. cbn. rewrite boundedY_origin. unfold targetPitch. cbn.
      replace (0 + (0 + (0 - 0) * 0.002) * 0.95) with 0 by lra.
      rewrite boundedAngle_origin. eexists. f_equal; lra.
    + rewrite steer_turbo. cbn. eexists. f_equal; lra.
  - eexists. reflexivity.
Qed.

(** X8. The ship does not drift before the first pointer event: as long as
    no pointer event has happened, whatever keys were pressed and however
    many frames were rendered, the point steered by is (0, 0, 0) and the
    height, yaw, pitch and accumulators of the controller are all 0. *)
Theorem no_drift_before_pointer (camera0 : CameraRig.Camera) (es : list App.Event) :
  forallb (fun e => negb (App.is_pointer_event e)) es = true ->
  let s := App.run camera0 es in
  Experience.mousePoint (App.experience s) = Vector3.mk 0 0 0
  /\ translateY (App.controller s) = 0
  /\ translateAcceleration (App.controller s) = 0
  /\ angleZ (App.controller s) = 0
  /\ angleAcceleration (App.controller s) = 0
  /\ pitchAngle (App.controller s) = 0
  /\ pitchAcceleration (App.controller s) = 0.
Proof.
  intros H. cbv zeta.
  assert (Hinv : Experience.mousePoint (App.experience (App.run camera0 es)) = Vector3.mk 0 0 0
                 /\ exists g, App.controller (App.run camera0 es) = mkRefs g 0 0 0 0 0 0).
  { induction es as [|e es IH] using rev_ind.
    - split; [reflexivity | eexists; reflexivity].
    - rewrite forallb_app in H. apply andb_prop in H. destruct H as [Hes He].
      cbn in He. rewrite andb_true_r in He. apply negb_true_iff in He.
      destruct (IH Hes) as [Hp [g Hc]].
      pose proof (app_turbo camera0 es) as Ht.
      unfold App.run in *. rewrite fold_left_app. cbn [fold_left].
      set (s := fold_left App.step es (App.mount camera0)) in *.
      destruct e as [i|g'|]; cbn.
      + split; [|exists g; exact Hc].
        destruct i as [code|code|p]; cbn in He |- *; try discriminate.
        * unfold Experience.handleKeyDown.
          destruct (String.eqb code "Space"); exact Hp.
        * unfold Experience.handleKeyUp.
          destruct (String.eqb code "Space"); exact Hp.
      + split; [exact Hp|]. rewrite Hc. eexists. reflexivity.
      + split; [exact Hp|]. rewrite Hp, Hc. apply frame_rest, Ht. }
  destruct Hinv as [Hp [g Hc]]. rewrite Hc. repeat split. exact Hp.
Qed.

Lemma no_drift_before_pointer_witness :
  translateY
    (App.controller
       (App.run (CameraRig.mkCamera (Vector3.mk 0 0 5) (Vector3.mk 0 0 0) 40)
          [App.SetRef (Some ship0); App.Tick; App.Input (Experience.KeyDown "Space");
           App.Tick])) = 0.
Proof.
  exact (proj1 (proj2 (no_drift_before_pointer
    (CameraRig.mkCamera (Vector3.mk 0 0 5) (Vector3.mk 0 0 0) 40)
    [App.SetRef (Some ship0); App.Tick; App.Input (Experience.KeyDown "Space"); App.Tick]
    eq_refl))).
Defined.

(** X9. While Space is held the pointer steers nothing: from any state of
    the application in which the flag is 1, a sequence of events without a
    Space key-up leaves the state it would leave with its pointer events
    taken out, for the ship and for the camera alike. *)
Theorem turbo_drops_pointer (es : list App.Event) (s : App.State) :
  Experience.turbo (App.experience s) = 1 ->
  forallb (fun e => negb (App.is_space_up_event e)) es = true ->
  fold_left App.step es s
  = fold_left App.step (List.filter (fun e => negb (App.is_pointer_event e)) es) s.
Proof.
  revert s. induction es as [|e es IH]; intros s Ht H; [reflexivity|].
  cbn in H. apply andb_prop in H. destruct H as [He Hes].
  apply negb_true_iff in He. cbn [fold_left List.filter].
  destruct e as [i|g|].
  - cbn in He. assert (Hs : App.step s (App.Input i) = s).
    { cbn. rewrite (handle_turbo_held i _ Ht He). destruct s; reflexivity. }
    destruct (negb (App.is_pointer_event (App.Input i))); cbn [fold_left];
      rewrite Hs; apply IH; assumption.
  - cbn [App.is_pointer_event negb fold_left]. apply IH; [exact Ht | exact Hes].
  - cbn [App.is_pointer_event negb fold_left]. apply IH; [exact Ht | exact Hes].
Qed.

Lemma turbo_drops_pointer_witness :
  let s := App.run (CameraRig.mkCamera (Vector3.mk 0 0 5) (Vector3.mk 0 0 0) 40)
             [App.SetRef (Some ship0); App.Input (Experience.KeyDown "Space")] in
  fold_left App.step
    [App.Tick; App.Input (Experience.PointerMove (Vector3.mk 1 2 3)); App.Tick] s
  = fold_left App.step [App.Tick; App.Tick] s.
Proof.
  exact (turbo_drops_pointer
    [App.Tick; App.Input (Experience.PointerMove (Vector3.mk 1 2 3)); App.Tick]
    (App.run (CameraRig.mkCamera (Vector3.mk 0 0 5) (Vector3.mk 0 0 0) 40)
       [App.SetRef (Some ship0); App.Input (Experience.KeyDown "Space")])
    eq_refl eq_refl).
Defined.
(** ** C3: a direction of length zero, in the application *)










(** ** The camera over many frames *)

Lemma init_between (camera0 : CameraRig.Camera) : camera_between (CameraRig.init camera0).
Proof.
  unfold camera_between, CameraRig.init. cbn. split; [|lra].
  exists 0. split; [lra|]. unfold Vector3.lerp, Vector3.copy, CameraRig.basePosition. cbn.
  f_equal; lra.
Qed.

Lemma frame_between (turbo : R) (c : CameraRig.Camera) :
  turbo = 0 \/ turbo = 1 -> camera_between c -> camera_between (CameraRig.frame turbo c).
Proof.
  intros Ht [(s & Hs & Hp) Hf]. unfold camera_between, CameraRig.frame.
  cbn [CameraRig.position CameraRig.fov]. rewrite Hp.
  unfold CameraRig.targetPos, CameraRig.targetFOV, MathUtils.lerp.
  destruct Ht as [-> | ->].
  - rewrite truthy_0. split; [|lra]. exists (0.95 * s). split; [lra|].
    unfold Vector3.lerp, CameraRig.basePosition, CameraRig.turboPosition.
    cbn [Vector3.x Vector3.y Vector3.z]. f_equal; lra.
  - rewrite truthy_1. split; [|lra]. exists (s + (1 - s) * 0.05). split; [lra|].
    unfold Vector3.lerp, CameraRig.basePosition, CameraRig.turboPosition.
    cbn [Vector3.x Vector3.y Vector3.z]. f_equal; lra.
Qed.

(** X10. Whatever the user does and however many frames are rendered, the
    camera stays on the segment from (-4, 4, 6) to (5, 1, 1), so inside the
    box these two span, and its field of view stays between 40 and 55. *)
Theorem camera_stays_between (camera0 : CameraRig.Camera) (es : list App.Event) :
  let c := App.camera (App.run camera0 es) in
  camera_between c
  /\ -4 <= Vector3.x (CameraRig.position c) <= 5
  /\ 1 <= Vector3.y (CameraRig.position c) <= 4
  /\ 1 <= Vector3.z (CameraRig.position c) <= 6.
Proof.
  cbv zeta.
  assert (H : camera_between (App.camera (App.run camera0 es))).
  { induction es as [|e es IH] using rev_ind.
    - apply init_between.
    - pose proof (app_turbo camera0 es) as Ht.
      unfold App.run in *. rewrite fold_left_app. cbn [fold_left].
      destruct e as [i|g|]; cbn; try exact IH.
      apply frame_between; assumption. }
  split; [exact H|]. destruct H as [(s & Hs & Hp) _]. rewrite Hp.
  unfold Vector3.lerp. cbn. lra.
Qed.

Lemma frame_init_base (camera0 : CameraRig.Camera) :
  CameraRig.frame 0 (CameraRig.init camera0) = CameraRig.init camera0.
Proof.
  unfold CameraRig.frame, CameraRig.init, CameraRig.targetPos, CameraRig.targetLook,
    CameraRig.targetFOV, MathUtils.lerp, Vector3.lerp, Vector3.copy.
  rewrite truthy_0. cbn. f_equal; [f_equal; lra | lra].
Qed.

(** X11. No fly-in: until Space is pressed for the first time the camera
    stays exactly where the mount effect put it, at (-4, 4, 6), aimed at
    (0, 0, 0), with field of view 40, however many frames are rendered. *)
Theorem camera_rests_until_turbo (camera0 : CameraRig.Camera) (es : list App.Event) :
  forallb (fun e => negb (App.is_space_down_event e)) es = true ->
  App.camera (App.run camera0 es)
  = CameraRig.mkCamera (Vector3.mk (-4) 4 6) (Vector3.mk 0 0 0) 40.
Proof.
  intros H. change (CameraRig.mkCamera (Vector3.mk (-4) 4 6) (Vector3.mk 0 0 0) 40)
    with (CameraRig.init camera0).
  assert (Hinv : Experience.turbo (App.experience (App.run camera0 es)) = 0
                 /\ App.camera (App.run camera0 es) = CameraRig.init camera0).
  { induction es as [|e es IH] using rev_ind.
    - split; reflexivity.
    - rewrite forallb_app in H. apply andb_prop in H. destruct H as [Hes He].
      cbn in He. rewrite andb_true_r in He. apply negb_true_iff in He.
      destruct (IH Hes) as [Ht Hc].
      unfold App.run in *. rewrite fold_left_app. cbn [fold_left].
      destruct e as [i|g|]; cbn.
      + split; [|exact Hc]. destruct i as [code|code|p]; cbn in He |- *.
        * unfold Experience.handleKeyDown. rewrite He. exact Ht.
        * unfold Experience.handleKeyUp. destruct (String.eqb code "Space"); [reflexivity | exact Ht].
        * unfold Experience.handlePointerMove.
          destruct (MousePlane.handlePointerMove _ _); exact Ht.
      + split; assumption.
      + split; [exact Ht|]. rewrite Ht, Hc. apply frame_init_base. }
  apply Hinv.
Qed.

Lemma camera_rests_until_turbo_witness :
  App.camera
    (App.run (CameraRig.mkCamera (Vector3.mk 0 0 5) (Vector3.mk 1 1 1) 75)
       [App.Tick; App.Input (Experience.PointerMove (Vector3.mk 1 2 3)); App.Tick;
        App.Input (Experience.KeyUp "Space"); App.Tick])
  = CameraRig.mkCamera (Vector3.mk (-4) 4 6) (Vector3.mk 0 0 0) 40.
Proof.
  exact (camera_rests_until_turbo
    (CameraRig.mkCamera (Vector3.mk 0 0 5) (Vector3.mk 1 1 1) 75)
    [App.Tick; App.Input (Experience.PointerMove (Vector3.mk 1 2 3)); App.Tick;
     App.Input (Experience.KeyUp "Space"); App.Tick] eq_refl).
Defined.

(** X12. Frames compose: [n] frames under one turbo flag are a single
    interpolation toward the target, by [1 - 0.95 ^ n] for the position and
    by [1 - 0.98 ^ n] for the field of view; after at least one frame the
    camera is aimed at the look-at target of that flag. *)
Theorem camera_frames_closed_form (turbo : R) (n : nat) (c : CameraRig.Camera) :
  CameraRig.position (CameraRig.frames turbo n c)
    = Vector3.lerp (CameraRig.position c) (CameraRig.targetPos turbo) (1 - 0.95 ^ n)
  /\ CameraRig.fov (CameraRig.frames turbo n c)
    = MathUtils.lerp (CameraRig.fov c) (CameraRig.targetFOV turbo) (1 - 0.98 ^ n)
  /\ CameraRig.lookAt (CameraRig.frames turbo (S n) c) = CameraRig.targetLook turbo.
Proof.
  split; [|split].
  - induction n as [|n IH].
    + cbn. destruct (CameraRig.position c) as [x y z]. unfold Vector3.lerp. cbn.
      f_equal; ring.
    + rewrite frames_S. unfold CameraRig.frame at 1. cbn [CameraRig.position].
      rewrite IH. unfold Vector3.lerp. cbn [Vector3.x Vector3.y Vector3.z pow].
      generalize (0.95 ^ n). intros q. f_equal; nra.
  - induction n as [|n IH].
    + cbn. unfold MathUtils.lerp. ring.
    + rewrite frames_S. unfold CameraRig.frame at 1. cbn [CameraRig.fov].
      rewrite IH. unfold MathUtils.lerp. cbn [pow].
      generalize (0.98 ^ n). intros q. nra.
  - rewrite frames_S. reflexivity.
Qed.
(** ** The direction the yaw is computed from *)

(** X17. Whenever the pointer is not on the vertical axis through the ship,
    as after every pointer event the application accepts, the direction the
    yaw is computed from is a unit vector; more generally it is a unit
    vector unless the pointer is exactly at the ship, when it is the zero
    vector. *)
Theorem dir_is_unit (mp : Vector3.t) (ty : R) :
  (Vector3.x mp <> 0 \/ Vector3.z mp <> 0 \/ Vector3.y mp <> ty ->
   Vector3.length (SpaceshipController.dir mp ty) = 1)
  /\ (Vector3.x mp = 0 /\ Vector3.z mp = 0 /\ Vector3.y mp = ty ->
      SpaceshipController.dir mp ty = Vector3.mk 0 0 0)
  /\ (forall event_point p,
        MousePlane.handlePointerMove 0 event_point = Some p ->
        Vector3.length (SpaceshipController.dir p ty) = 1).
Proof.
  assert (Hunit : forall q : Vector3.t,
             Vector3.x q <> 0 \/ Vector3.z q <> 0 \/ Vector3.y q <> ty ->
             Vector3.length (SpaceshipController.dir q ty) = 1).
  { intros q Hq.
    assert (Hl : Vector3.length (offset q ty) <> 0).
    { intros Hl. apply length_zero in Hl. unfold offset in Hl. cbn in Hl.
      destruct Hl as (Hx & Hy & Hz). destruct Hq as [Hq | [Hq | Hq]]; apply Hq; lra. }
    unfold SpaceshipController.dir, Vector3.normalize. rewrite (truthy_nonzero _ Hl).
    pose proof (length_nonneg (offset q ty)) as Hn.
    unfold Vector3.divideScalar. rewrite length_multiplyScalar.
    - field. exact Hl.
    - unfold Rdiv. rewrite Rmult_1_l. left. apply Rinv_0_lt_compat. lra. }
  split; [apply Hunit|]. split.
  - intros (Hx & Hz & Hy). apply normalize_zero. unfold Vector3.length, offset. cbn.
    rewrite Hx, Hz, Hy. replace (_ + _ + _) with 0 by lra. apply sqrt_0.
  - intros ev p Hp. unfold MousePlane.handlePointerMove in Hp.
    destruct (Rlt_dec 0 0); [lra|]. injection Hp as <-.
    apply Hunit. left. cbn. lra.
Qed.

(** ** The scene across a frame of DynamicEnvMap *)

Import EnvScene.

Lemma is_spaceship_name (a b : Object3D) :
  name b = name a -> is_spaceship b = is_spaceship a.
Proof. unfold is_spaceship. intros ->. reflexivity. Qed.

Lemma objects_step_refl (v : bool) (O : gmap nat Object3D) : objects_step v O O.
Proof. intros id. destruct (O !! id); auto. Qed.

Lemma objects_step_trans (v : bool) (O O' O'' : gmap nat Object3D) :
  objects_step v O O' -> objects_step v O' O'' -> objects_step v O O''.
Proof.
  intros H1 H2 id. specialize (H1 id). specialize (H2 id).
  destruct (O !! id) as [a|], (O' !! id) as [b|], (O'' !! id) as [c|]; try tauto.
  destruct H1 as (Hn1 & Hm1 & H1), H2 as (Hn2 & Hm2 & H2).
  split; [congruence|]. split; [congruence|].
  destruct H2 as [-> | [Hs Hv]]; [exact H1|].
  right. split; [|exact Hv]. rewrite <- (is_spaceship_name a b Hn1). exact Hs.
Qed.

(** Once a spaceship has visibility [v] a traversal toward [v] keeps it. *)
Lemma objects_step_keeps (v : bool) (O O' : gmap nat Object3D) (id : nat) (a : Object3D) :
  objects_step v O O' -> O !! id = Some a -> visible a = v ->
  exists b, O' !! id = Some b /\ visible b = v.
Proof.
  intros H Ha Hv. specialize (H id). rewrite Ha in H.
  destruct (O' !! id) as [b|]; [|tauto]. exists b. split; [reflexivity|].
  destruct H as (_ & _ & [-> | [_ Hb]]); assumption.
Qed.

Lemma setVisible_spaceship (id : nat) (v : bool) (sc : Scene) (o : Object3D) :
  objects sc !! id = Some o -> is_spaceship o = true ->
  objects_step v (objects sc) (objects (setVisible id v sc))
  /\ exists b, objects (setVisible id v sc) !! id = Some b /\ visible b = v.
Proof.
  intros Ho Hs. unfold setVisible. rewrite Ho. cbn [objects]. split.
  - intros j. destruct (decide (id = j)) as [<-|Hne].
    + rewrite Ho, lookup_insert_eq. cbn. repeat split. right. split; [exact Hs | reflexivity].
    + rewrite lookup_insert_ne by exact Hne. destruct (objects sc !! j); auto.
  - eexists. rewrite lookup_insert_eq. split; reflexivity.
Qed.

Lemma setVisible_rest (id : nat) (v : bool) (sc : Scene) :
  root (setVisible id v sc) = root sc
  /\ background (setVisible id v sc) = background sc
  /\ materials (setVisible id v sc) = materials sc.
Proof. unfold setVisible. destruct (objects sc !! id); repeat split. Qed.

Lemma hide_step (t : Tree) (sc : Scene) :
  root (hide t sc) = root sc
  /\ background (hide t sc) = background sc
  /\ materials (hide t sc) = materials sc
  /\ objects_step false (objects sc) (objects (hide t sc))
  /\ (forall o, objects sc !! object t = Some o -> is_spaceship o = true ->
        exists b, objects (hide t sc) !! object t = Some b /\ visible b = false).
Proof.
  unfold hide. destruct (objects sc !! object t) as [o|] eqn:Ho.
  - destruct (is_spaceship o) eqn:Hs.
    + destruct (setVisible_rest (object t) false sc) as (Hr & Hb & Hm).
      destruct (setVisible_spaceship (object t) false sc o Ho Hs) as [Hst Hv].
      repeat split; try assumption. intros _ _ _. exact Hv.
    + repeat split; [apply objects_step_refl|]. intros o' [= <-] H. congruence.
  - repeat split; [apply objects_step_refl|]. intros o' H. discriminate.
Qed.

Lemma hide_fold (l : list Tree) (sc : Scene) :
  let sc' := fold_left (fun sc obj => hide obj sc) l sc in
  root sc' = root sc
  /\ background sc' = background sc
  /\ materials sc' = materials sc
  /\ objects_step false (objects sc) (objects sc')
  /\ (forall t b, In t l -> objects sc' !! object t = Some b ->
        is_spaceship b = true -> visible b = false).
Proof.
  cbv zeta. revert sc. induction l as [|t l IH]; intros sc.
  - cbn. repeat split; [apply objects_step_refl|]. intros t b [].
  - cbn [fold_left]. destruct (hide_step t sc) as (Hr & Hb & Hm & Hst & Hv).
    destruct (IH (hide t sc)) as (Hr' & Hb' & Hm' & Hst' & Hv').
    split; [congruence|]. split; [congruence|]. split; [congruence|].
    split; [eapply objects_step_trans; eassumption|].
    intros t' b [<- | Hin] Hlook Hs; [|eapply Hv'; eassumption].
    pose proof (objects_step_trans _ _ _ _ Hst Hst' (object t)) as Hall.
    rewrite Hlook in Hall. destruct (objects sc !! object t) as [a|] eqn:Ha; [|tauto].
    destruct Hall as (Hn & _ & _).
    rewrite (is_spaceship_name a b Hn) in Hs.
    destruct (Hv a eq_refl Hs) as (b1 & Hb1 & Hvb1).
    destruct (objects_step_keeps false _ _ _ _ Hst' Hb1 Hvb1) as (b2 & Hb2 & Hvb2).
    congruence.
Qed.

(** X13. The scene the environment map is rendered from has no background
    and shows no spaceship: every object of the graph named spaceship is
    invisible in it.  Every other object is as it was, every object keeps
    its name and its material, and the materials are as they were. *)
Theorem capture_hides_ship (sc : Scene) :
  background (seen sc) = None
  /\ root (seen sc) = root sc
  /\ materials (seen sc) = materials sc
  /\ (forall t b, In t (preorder (root sc)) ->
        objects (seen sc) !! object t = Some b -> is_spaceship b = true ->
        visible b = false)
  /\ (forall id a, objects sc !! id = Some a ->
        exists b, objects (seen sc) !! id = Some b
          /\ name b = name a /\ material b = material a
          /\ (is_spaceship a = false -> b = a)).
Proof.
  unfold seen, traverse, setBackground. cbn [background root materials objects].
  destruct (hide_fold (preorder (root sc)) sc) as (Hr & _ & Hm & Hst & Hv).
  repeat split; try assumption.
  intros id a Ha. specialize (Hst id). rewrite Ha in Hst.
  destruct (objects _ !! id) as [b|]; [|tauto]. exists b.
  destruct Hst as (Hn & Hmat & Hc). repeat split; try assumption.
  intros Hs. destruct Hc as [-> | [Hs' _]]; [reflexivity | congruence].
Qed.
Lemma materials_step_refl (e : nat) (M : gmap nat Material) : materials_step e M M.
Proof. intros m. destruct (M !! m); auto. Qed.

Lemma materials_step_trans (e : nat) (M M' M'' : gmap nat Material) :
  materials_step e M M' -> materials_step e M' M'' -> materials_step e M M''.
Proof.
  intros H1 H2 m. specialize (H1 m). specialize (H2 m).
  destruct (M !! m) as [a|], (M' !! m) as [b|], (M'' !! m) as [c|]; try tauto.
  destruct H1 as (Hs1 & H1), H2 as (Hs2 & H2).
  split; [congruence|].
  destruct H2 as [-> | Hc]; [exact H1 | right; exact Hc].
Qed.

(** A material that carries [e] keeps carrying it. *)
Lemma materials_step_keeps (e : nat) (M M' : gmap nat Material) (m : nat) (a : Material) :
  materials_step e M M' -> M !! m = Some a -> carries e a ->
  exists b, M' !! m = Some b /\ carries e b.
Proof.
  intros H Ha Hc. specialize (H m). rewrite Ha in H.
  destruct (M' !! m) as [b|]; [|tauto]. exists b. split; [reflexivity|].
  destruct H as (_ & [-> | Hb]); assumption.
Qed.

Lemma materials_step_standard (e : nat) (M M' : gmap nat Material) (m : nat) (b : Material) :
  materials_step e M M' -> M' !! m = Some b ->
  exists a, M !! m = Some a /\ standard a = standard b.
Proof.
  intros H Hb. specialize (H m). rewrite Hb in H.
  destruct (M !! m) as [a|]; [|tauto]. exists a. split; [reflexivity|].
  destruct H as (Hs & _). congruence.
Qed.

Lemma objects_step_back (v : bool) (O O' : gmap nat Object3D) (id : nat) (b : Object3D) :
  objects_step v O O' -> O' !! id = Some b ->
  exists a, O !! id = Some a /\ name b = name a /\ material b = material a.
Proof.
  intros H Hb. specialize (H id). rewrite Hb in H.
  destruct (O !! id) as [a|]; [|tauto]. exists a. tauto.
Qed.

Lemma objects_step_forth (v : bool) (O O' : gmap nat Object3D) (id : nat) (a : Object3D) :
  objects_step v O O' -> O !! id = Some a ->
  exists b, O' !! id = Some b /\ name b = name a /\ material b = material a.
Proof.
  intros H Ha. specialize (H id). rewrite Ha in H.
  destruct (O' !! id) as [b|]; [|tauto]. exists b. tauto.
Qed.

Lemma applyEnvMap_step (e : nat) (t : Tree) (sc : Scene) :
  let sc' := applyEnvMap e t sc in
  root sc' = root sc
  /\ background sc' = background sc
  /\ objects sc' = objects sc
  /\ materials_step e (materials sc) (materials sc')
  /\ (forall o m a, objects sc !! object t = Some o -> material o = Some m ->
        materials sc !! m = Some a -> standard a = true ->
        exists b, materials sc' !! m = Some b /\ carries e b)
  /\ (forall m, (forall o, objects sc !! object t = Some o -> material o <> Some m) ->
        materials sc' !! m = materials sc !! m).
Proof.
  cbv zeta. unfold applyEnvMap.
  assert (Hnoop : forall P : Prop, P ->
            root sc = root sc /\ background sc = background sc
            /\ objects sc = objects sc
            /\ materials_step e (materials sc) (materials sc)
            /\ P
            /\ (forall m, (forall o, objects sc !! object t = Some o -> material o <> Some m) ->
                  materials sc !! m = materials sc !! m)).
  { intros P HP. repeat split; [apply materials_step_refl | exact HP]. }
  destruct (objects sc !! object t) as [o|] eqn:Ho;
    [|apply Hnoop; intros; congruence].
  destruct (material o) as [m|] eqn:Hm;
    [|apply Hnoop; intros; congruence].
  destruct (materials sc !! m) as [mat|] eqn:Hmat;
    [|apply Hnoop; intros; congruence].
  destruct (standard mat) eqn:Hstd;
    [|apply Hnoop; intros; congruence].
  clear Hnoop.
  cbn [root background objects materials]. repeat split.
  - intros j. destruct (decide (m = j)) as [<-|Hne].
    + rewrite Hmat, lookup_insert_eq. cbn. split; [congruence|]. right.
      unfold carries. cbn. repeat split.
      destruct (normalScale mat); cbn; auto.
    + rewrite lookup_insert_ne by exact Hne. destruct (materials sc !! j); auto.
  - intros o' m' a [= <-] Hm' Ha Hs. assert (m' = m) as -> by congruence.
    eexists. rewrite lookup_insert_eq. split; [reflexivity|].
    unfold carries. cbn. repeat split. destruct (normalScale mat); cbn; auto.
  - intros j Hj. specialize (Hj o eq_refl). rewrite lookup_insert_ne; [reflexivity|].
    congruence.
Qed.

Lemma applyEnvMap_fold (e : nat) (l : list Tree) (sc : Scene) :
  let sc' := fold_left (fun sc child => applyEnvMap e child sc) l sc in
  root sc' = root sc
  /\ background sc' = background sc
  /\ objects sc' = objects sc
  /\ materials_step e (materials sc) (materials sc')
  /\ (forall c o m b, In c l -> objects sc !! object c = Some o -> material o = Some m ->
        materials sc' !! m = Some b -> standard b = true -> carries e b)
  /\ (forall m, (forall c o, In c l -> objects sc !! object c = Some o ->
                             material o <> Some m) ->
        materials sc' !! m = materials sc !! m).
Proof.
  cbv zeta. revert sc. induction l as [|t l IH]; intros sc.
  - cbn. split; [reflexivity|]. split; [reflexivity|]. split; [reflexivity|].
    split; [apply materials_step_refl|]. split; [intros c o m b [] | reflexivity].
  - cbn [fold_left].
    destruct (applyEnvMap_step e t sc) as (Hr & Hb & Ho & Hst & Hc & Hu).
    destruct (IH (applyEnvMap e t sc)) as (Hr' & Hb' & Ho' & Hst' & Hc' & Hu').
    split; [congruence|]. split; [congruence|]. split; [congruence|].
    split; [eapply materials_step_trans; eassumption|]. split.
    + intros c o m b [<- | Hin] Hlook Hm Hlb Hs.
      * destruct (materials_step_standard _ _ _ _ _
                    (materials_step_trans _ _ _ _ Hst Hst') Hlb) as (a & Ha & Hsa).
        destruct (Hc o m a Hlook Hm Ha) as (b1 & Hb1 & Hcb1); [congruence|].
        destruct (materials_step_keeps _ _ _ _ _ Hst' Hb1 Hcb1) as (b2 & Hb2 & Hcb2).
        congruence.
      * rewrite <- Ho in Hlook. eapply Hc'; eassumption.
    + intros m Hm. rewrite Hu'.
      * apply Hu. intros o Hlook. eapply Hm; [left; reflexivity | exact Hlook].
      * intros c o Hin Hlook. rewrite Ho in Hlook. eapply Hm; [right; exact Hin | exact Hlook].
Qed.
Lemma show_step (e : nat) (t : Tree) (sc : Scene) :
  let sc' := show e t sc in
  root sc' = root sc
  /\ background sc' = background sc
  /\ objects_step true (objects sc) (objects sc')
  /\ materials_step e (materials sc) (materials sc')
  /\ (forall o, objects sc !! object t = Some o -> is_spaceship o = true ->
        (exists b, objects sc' !! object t = Some b /\ visible b = true)
        /\ (forall c oc m b, In c (preorder t) ->
              objects sc !! object c = Some oc -> material oc = Some m ->
              materials sc' !! m = Some b -> standard b = true -> carries e b))
  /\ (forall m,
        (forall o c oc, objects sc !! object t = Some o -> is_spaceship o = true ->
           In c (preorder t) -> objects sc !! object c = Some oc ->
           material oc <> Some m) ->
        materials sc' !! m = materials sc !! m).
Proof.
  cbv zeta. unfold show.
  assert (Hnoop : forall P : Prop, P ->
            root sc = root sc /\ background sc = background sc
            /\ objects_step true (objects sc) (objects sc)
            /\ materials_step e (materials sc) (materials sc)
            /\ P
            /\ (forall m,
                  (forall o c oc, objects sc !! object t = Some o -> is_spaceship o = true ->
                     In c (preorder t) -> objects sc !! object c = Some oc ->
                     material oc <> Some m) ->
                  materials sc !! m = materials sc !! m)).
  { intros P HP. split; [reflexivity|]. split; [reflexivity|].
    split; [apply objects_step_refl|]. split; [apply materials_step_refl|].
    split; [exact HP | reflexivity]. }
  destruct (objects sc !! object t) as [o|] eqn:Ho;
    [|apply Hnoop; intros; congruence].
  destruct (is_spaceship o) eqn:Hs;
    [|apply Hnoop; intros; congruence].
  clear Hnoop. unfold traverse.
  destruct (setVisible_rest (object t) true sc) as (Hr1 & Hb1 & Hm1).
  destruct (setVisible_spaceship (object t) true sc o Ho Hs) as [Hst1 Hv1].
  destruct (applyEnvMap_fold e (preorder t) (setVisible (object t) true sc))
    as (Hr & Hb & Hobj & Hst & Hc & Hu).
  rewrite Hm1 in Hst, Hu.
  split; [congruence|]. split; [congruence|].
  split; [rewrite Hobj; exact Hst1|]. split; [exact Hst|]. split.
  - intros o' _ _. split; [rewrite Hobj; exact Hv1|].
    intros c oc m b Hin Hlook Hmat Hlb Hstd.
    destruct (objects_step_forth _ _ _ _ _ Hst1 Hlook) as (oc1 & Hoc1 & _ & Hmat1).
    apply (Hc c oc1 m b); [exact Hin | exact Hoc1 | congruence | exact Hlb | exact Hstd].
  - intros m Hm. apply Hu. intros c o1 Hin Hlook.
    destruct (objects_step_back _ _ _ _ _ Hst1 Hlook) as (oc & Hoc & _ & Hmat).
    rewrite Hmat. eapply Hm; [reflexivity | exact Hs | exact Hin | exact Hoc].
Qed.

Lemma show_fold (e : nat) (l : list Tree) (sc : Scene) :
  let sc' := fold_left (fun sc obj => show e obj sc) l sc in
  root sc' = root sc
  /\ background sc' = background sc
  /\ objects_step true (objects sc) (objects sc')
  /\ materials_step e (materials sc) (materials sc')
  /\ (forall t b, In t l -> objects sc' !! object t = Some b ->
        is_spaceship b = true -> visible b = true)
  /\ (forall t o c oc m b, In t l ->
        objects sc !! object t = Some o -> is_spaceship o = true ->
        In c (preorder t) -> objects sc !! object c = Some oc -> material oc = Some m ->
        materials sc' !! m = Some b -> standard b = true -> carries e b)
  /\ (forall m,
        (forall t o c oc, In t l ->
           objects sc !! object t = Some o -> is_spaceship o = true ->
           In c (preorder t) -> objects sc !! object c = Some oc ->
           material oc <> Some m) ->
        materials sc' !! m = materials sc !! m).
Proof.
  cbv zeta. revert sc. induction l as [|t l IH]; intros sc.
  - cbn. split; [reflexivity|]. split; [reflexivity|].
    split; [apply objects_step_refl|]. split; [apply materials_step_refl|].
    split; [intros t b [] |]. split; [intros t o c oc m b [] | reflexivity].
  - cbn [fold_left].
    destruct (show_step e t sc) as (Hr & Hb & Hso & Hsm & Hc & Hu).
    destruct (IH (show e t sc)) as (Hr' & Hb' & Hso' & Hsm' & Hv' & Hc' & Hu').
    pose proof (objects_step_trans _ _ _ _ Hso Hso') as Hall.
    split; [congruence|]. split; [congruence|].
    split; [exact Hall|].
    split; [eapply materials_step_trans; eassumption|]. split; [|split].
    + intros t' b [<- | Hin] Hlook Hs; [|eapply Hv'; eassumption].
      destruct (objects_step_back _ _ _ _ _ Hall Hlook) as (a & Ha & Hn & _).
      rewrite (is_spaceship_name a b Hn) in Hs.
      destruct (Hc a Ha Hs) as [(b1 & Hb1 & Hvb1) _].
      destruct (objects_step_keeps true _ _ _ _ Hso' Hb1 Hvb1) as (b2 & Hb2 & Hvb2).
      congruence.
    + intros t' o c oc m b [<- | Hin] Hlook Hs Hinc Hlc Hmat Hlb Hstd.
      * destruct (materials_step_standard _ _ _ _ _ Hsm' Hlb) as (b1 & Hb1 & Hstd1).
        destruct (Hc o Hlook Hs) as [_ Hcar].
        assert (Hcb1 : carries e b1)
          by (apply (Hcar c oc m b1); [exact Hinc | exact Hlc | exact Hmat | exact Hb1 | congruence]).
        destruct (materials_step_keeps _ _ _ _ _ Hsm' Hb1 Hcb1) as (b2 & Hb2 & Hcb2).
        congruence.
      * destruct (objects_step_forth _ _ _ _ _ Hso Hlook) as (o1 & Ho1 & Hn1 & _).
        destruct (objects_step_forth _ _ _ _ _ Hso Hlc) as (oc1 & Hoc1 & _ & Hm1).
        eapply (Hc' t' o1 c oc1 m b); try eassumption.
        -- rewrite (is_spaceship_name o o1 Hn1). exact Hs.
        -- congruence.
    + intros m Hm. rewrite Hu'.
      * apply Hu. intros o c oc Hlook Hs Hinc Hlc.
        eapply Hm; [left; reflexivity | exact Hlook | exact Hs | exact Hinc | exact Hlc].
      * intros t' o1 c oc1 Hin Hlook Hs Hinc Hlc.
        destruct (objects_step_back _ _ _ _ _ Hso Hlook) as (o & Ho & Hn & _).
        destruct (objects_step_back _ _ _ _ _ Hso Hlc) as (oc & Hoc & _ & Hmat).
        rewrite Hmat. eapply Hm; [right; exact Hin | exact Ho | | exact Hinc | exact Hoc].
        rewrite <- (is_spaceship_name o o1 Hn). exact Hs.
Qed.

Lemma steps_same_objects (O O1 O2 : gmap nat Object3D) :
  objects_step false O O1 -> objects_step true O1 O2 -> same_objects O O2.
Proof.
  intros H1 H2 id. specialize (H1 id). specialize (H2 id).
  destruct (O !! id) as [a|], (O1 !! id) as [b|], (O2 !! id) as [c|]; try tauto.
  destruct H1 as (Hn1 & Hm1 & H1), H2 as (Hn2 & Hm2 & H2).
  split; [congruence|]. split; [congruence|]. intros Hs.
  destruct H1 as [-> | [Hs1 _]]; [|congruence].
  destruct H2 as [-> | [Hs2 _]]; [reflexivity | congruence].
Qed.

Lemma frame_gpu (s : State) : gpu (frame s) = DynamicEnvMap.frame (gpu s).
Proof. reflexivity. Qed.

(** What a frame does to the scene. *)
Lemma frame_scene_facts (s : State) :
  let sc := scene s in
  let sc' := scene (frame s) in
  let e := DynamicEnvMap.fresh (gpu s) in
  root sc' = root sc
  /\ background sc' = background sc
  /\ same_objects (objects sc) (objects sc')
  /\ (forall t b, In t (preorder (root sc)) -> objects sc' !! object t = Some b ->
        is_spaceship b = true -> visible b = true)
  /\ materials_step e (materials sc) (materials sc')
  /\ (forall child oc m b, on_ship sc child ->
        objects sc !! object child = Some oc -> material oc = Some m ->
        materials sc' !! m = Some b -> standard b = true -> carries e b)
  /\ (forall m,
        (forall child oc, on_ship sc child -> objects sc !! object child = Some oc ->
           material oc <> Some m) ->
        materials sc' !! m = materials sc !! m).
Proof.
  cbv zeta. unfold frame, traverse. cbn [DynamicEnvMap.fromScene scene].
  destruct (hide_fold (preorder (root (scene s))) (scene s)) as (Hr & Hb & Hm & Hso & _).
  set (sch := fold_left (fun sc obj => hide obj sc) (preorder (root (scene s))) (scene s)) in *.
  set (scr := setBackground (background sch) (setBackground None sch)).
  assert (Hscr : root scr = root sch /\ background scr = background sch
                 /\ objects scr = objects sch /\ materials scr = materials sch)
    by (repeat split).
  destruct Hscr as (Hr1 & Hb1 & Ho1 & Hm1).
  destruct (show_fold (DynamicEnvMap.fresh (gpu s)) (preorder (root scr)) scr)
    as (Hr' & Hb' & Hso' & Hsm' & Hv' & Hc' & Hu').
  rewrite Ho1 in Hso', Hc', Hu'. rewrite Hm1, Hm in Hsm', Hu'.
  assert (Hroot : root scr = root (scene s)) by congruence.
  rewrite Hroot in *.
  split; [congruence|]. split; [congruence|].
  split; [eapply steps_same_objects; eassumption|].
  split; [exact Hv'|]. split; [exact Hsm'|]. split.
  - intros child oc m b (ship & o & Hin & Ho & Hs & Hinc) Hlc Hmat Hlb Hstd.
    destruct (objects_step_forth _ _ _ _ _ Hso Ho) as (o1 & Ho1' & Hn1 & _).
    destruct (objects_step_forth _ _ _ _ _ Hso Hlc) as (oc1 & Hoc1 & _ & Hmat1).
    apply (Hc' ship o1 child oc1 m b); try assumption.
    + rewrite (is_spaceship_name o o1 Hn1). exact Hs.
    + congruence.
  - intros m Hmm. apply Hu'. intros ship o1 c oc1 Hin Ho1' Hs Hinc Hoc1.
    destruct (objects_step_back _ _ _ _ _ Hso Ho1') as (o & Ho & Hn & _).
    destruct (objects_step_back _ _ _ _ _ Hso Hoc1) as (oc & Hoc & _ & Hmat).
    rewrite Hmat. apply (Hmm c oc); [|exact Hoc].
    exists ship, o. repeat split; try assumption.
    rewrite <- (is_spaceship_name o o1 Hn). exact Hs.
Qed.

(** X14. A frame gives the scene back as it took it, up to the ship: the
    graph and the background are the ones from before the frame, every
    object keeps its name and its material, every object not named spaceship
    is as it was, and every object of the graph named spaceship is visible,
    whether it was visible before the frame or not. *)
Theorem frame_restores_scene (s : State) :
  let sc := scene s in
  let sc' := scene (frame s) in
  root sc' = root sc
  /\ background sc' = background sc
  /\ (forall id a, objects sc !! id = Some a ->
        exists b, objects sc' !! id = Some b
          /\ name b = name a /\ material b = material a
          /\ (is_spaceship a = false -> b = a))
  /\ (forall id, objects sc !! id = None -> objects sc' !! id = None)
  /\ (forall t b, In t (preorder (root sc)) -> objects sc' !! object t = Some b ->
        is_spaceship b = true -> visible b = true).
Proof.
  cbv zeta. destruct (frame_scene_facts s) as (Hr & Hb & Ho & Hv & _).
  split; [exact Hr|]. split; [exact Hb|]. split; [|split; [|exact Hv]].
  - intros id a Ha. specialize (Ho id). rewrite Ha in Ho.
    destruct (objects (scene (frame s)) !! id) as [b|]; [|tauto]. exists b. tauto.
  - intros id Ha. specialize (Ho id). rewrite Ha in Ho.
    destruct (objects (scene (frame s)) !! id) as [b|]; [tauto | reflexivity].
Qed.

(** X15. A frame hands the map it has just generated to the ship, and to
    nothing else.  After a frame started between two frames, the one map
    alive is the new one; every standard material of a mesh at or below an
    object named spaceship holds it, with intensity 100; a material that no
    such mesh refers to is as it was, and so is every material that is not a
    standard material. *)
Theorem frame_applies_envmap (s : State) :
  envmap_inv (gpu s) ->
  let sc := scene s in
  let sc' := scene (frame s) in
  let e := DynamicEnvMap.fresh (gpu s) in
  DynamicEnvMap.alive (gpu (frame s)) = {[ e ]}
  /\ (forall child oc m b, on_ship sc child ->
        objects sc !! object child = Some oc -> material oc = Some m ->
        materials sc' !! m = Some b -> standard b = true ->
        envMap b = Some e /\ envMapIntensity b = 100)
  /\ (forall m,
        (forall child oc, on_ship sc child -> objects sc !! object child = Some oc ->
           material oc <> Some m) ->
        materials sc' !! m = materials sc !! m)
  /\ (forall m a, materials sc !! m = Some a ->
        exists b, materials sc' !! m = Some b
          /\ standard b = standard a
          /\ (standard a = false -> b = a)).
Proof.
  intros Hinv. cbv zeta.
  destruct (frame_scene_facts s) as (_ & _ & _ & _ & Hsm & Hc & Hu).
  split; [rewrite frame_gpu; apply (frame_alive _ Hinv)|].
  split; [|split; [exact Hu|]].
  - intros child oc m b Hon Hlc Hmat Hlb Hstd.
    destruct (Hc child oc m b Hon Hlc Hmat Hlb Hstd) as (_ & He & Hi & _).
    split; assumption.
  - intros m a Ha. specialize (Hsm m). rewrite Ha in Hsm.
    destruct (materials (scene (frame s)) !! m) as [b|]; [|tauto]. exists b.
    destruct Hsm as (Hs & Hcase). split; [reflexivity|]. split; [exact Hs|].
    intros Hstd. destruct Hcase as [-> | (Hsb & _)]; [reflexivity | congruence].
Qed.

(** A scene with a spaceship mesh whose standard material holds no map yet,
    after one earlier frame: map 0 is alive and previous.  The frame makes
    map 1 the one map alive and hands it to the material of the ship. *)
Lemma frame_applies_envmap_witness :
  let sc := mkScene (Node 0 [Node 1 []]) None
              {[ 1%nat := mkObject "spaceship" false (Some 7%nat) ]}
              {[ 7%nat := mkMaterial true None 1 None 0 ]} in
  let s := mkState sc (DynamicEnvMap.frames 1) in
  DynamicEnvMap.previousEnvMap (gpu s) = Some 0%nat
  /\ DynamicEnvMap.alive (gpu (frame s)) = {[ 1%nat ]}
  /\ exists b : Material,
       materials (scene (frame s)) !! 7%nat = Some b
       /\ envMap b = Some 1%nat
       /\ envMapIntensity b = 100.
Proof.
  cbv zeta. split; [reflexivity|].
  destruct (frame_applies_envmap
              (mkState (mkScene (Node 0 [Node 1 []]) None
                          {[ 1%nat := mkObject "spaceship" false (Some 7%nat) ]}
                          {[ 7%nat := mkMaterial true None 1 None 0 ]})
                       (DynamicEnvMap.frames 1))
              (frames_envmap_inv 1)) as (Halive & Hc & _ & Hex).
  split; [exact Halive|].
  destruct (Hex 7%nat (mkMaterial true None 1 None 0)) as (b & Hb & Hstd & _);
    [apply lookup_singleton_eq|].
  exists b. split; [exact Hb|].
  apply (Hc (Node 1 []) (mkObject "spaceship" false (Some 7%nat)) 7%nat b).
  - exists (Node 1 []), (mkObject "spaceship" false (Some 7%nat)).
    split; [cbn; auto|]. split; [apply lookup_singleton_eq|].
    split; [reflexivity | cbn; auto].
  - apply lookup_singleton_eq.
  - reflexivity.
  - exact Hb.
  - exact Hstd.
Defined.

Lemma same_objects_refl (O : gmap nat Object3D) : same_objects O O.
Proof. intros id. destruct (O !! id); auto. Qed.

Lemma same_objects_trans (O O' O'' : gmap nat Object3D) :
  same_objects O O' -> same_objects O' O'' -> same_objects O O''.
Proof.
  intros H1 H2 id. specialize (H1 id). specialize (H2 id).
  destruct (O !! id) as [a|], (O' !! id) as [b|], (O'' !! id) as [c|]; try tauto.
  destruct H1 as (Hn1 & Hm1 & H1), H2 as (Hn2 & Hm2 & H2).
  split; [congruence|]. split; [congruence|]. intros Hs.
  rewrite (H1 Hs) in *. apply H2, Hs.
Qed.

Lemma on_ship_same (sc sc' : Scene) (child : Tree) :
  root sc' = root sc -> same_objects (objects sc) (objects sc') ->
  on_ship sc child -> on_ship sc' child.
Proof.
  intros Hr Ho (ship & o & Hin & Hl & Hs & Hc). specialize (Ho (object ship)).
  rewrite Hl in Ho. destruct (objects sc' !! object ship) as [b|] eqn:Hb; [|tauto].
  exists ship, b. rewrite Hr. repeat split; try assumption.
  destruct Ho as (Hn & _). rewrite (is_spaceship_name o b Hn). exact Hs.
Qed.

(** What any number of frames keeps of a scene. *)
Lemma env_frames_facts (n : nat) (s : State) :
  let s' := env_frames n s in
  root (scene s') = root (scene s)
  /\ same_objects (objects (scene s)) (objects (scene s'))
  /\ (forall m a, materials (scene s) !! m = Some a ->
        exists b, materials (scene s') !! m = Some b /\ standard b = standard a)
  /\ gpu s' = Nat.iter n DynamicEnvMap.frame (gpu s).
Proof.
  cbv zeta. unfold env_frames. induction n as [|n (Hr & Ho & Hm & Hg)].
  - cbn. repeat split; [apply same_objects_refl | eauto].
  - rewrite !Nat.iter_succ.
    destruct (frame_scene_facts (Nat.iter n frame s)) as (Hr' & _ & Ho' & _ & Hsm & _).
    split; [congruence|]. split; [eapply same_objects_trans; eassumption|].
    split; [|rewrite frame_gpu, Hg; reflexivity].
    intros m a Ha. destruct (Hm m a Ha) as (b & Hb & Hs).
    specialize (Hsm m). rewrite Hb in Hsm.
    destruct (materials (scene (frame (Nat.iter n frame s))) !! m) as [c|]; [|tauto].
    exists c. split; [reflexivity|]. destruct Hsm as (Hs' & _). congruence.
Qed.

(** X16. Between frames the ship never holds a disposed map.  After one or
    more frames from mount, every standard material of a mesh at or below an
    object named spaceship holds an environment map, and that map is the
    one map alive. *)
Theorem ship_map_is_alive
    (sc : Scene) (n : nat) (child : Tree) (oc : Object3D) (m : nat) (a : Material) :
  on_ship sc child ->
  objects sc !! object child = Some oc -> material oc = Some m ->
  materials sc !! m = Some a -> standard a = true ->
  let s := env_frames (S n) (mkState sc DynamicEnvMap.mount) in
  exists (b : Material) (e : nat),
    materials (scene s) !! m = Some b
    /\ envMap b = Some e
    /\ envMapIntensity b = 100
    /\ DynamicEnvMap.alive (gpu s) = {[ e ]}
    /\ DynamicEnvMap.previousEnvMap (gpu s) = Some e.
Proof.
  intros Hon Hlc Hmat Ha Hstd. cbv zeta.
  destruct (env_frames_facts n (mkState sc DynamicEnvMap.mount)) as (Hr & Ho & Hm & Hg).
  cbn [scene gpu] in Hr, Ho, Hm, Hg.
  set (sn := env_frames n (mkState sc DynamicEnvMap.mount)) in *.
  change (env_frames (S n) (mkState sc DynamicEnvMap.mount)) with (frame sn).
  assert (Hinv : envmap_inv (gpu sn)) by (rewrite Hg; apply (frames_envmap_inv n)).
  destruct (frame_scene_facts sn) as (_ & _ & _ & _ & Hsm & Hc & _).
  destruct (frame_alive _ Hinv) as (Halive & Hprev & _).
  destruct (Hm m a Ha) as (a' & Ha' & Hs').
  pose proof (Hsm m) as Hstep. rewrite Ha' in Hstep.
  destruct (materials (scene (frame sn)) !! m) as [b|] eqn:Hb; [|tauto].
  destruct Hstep as (Hsb & _).
  pose proof (Ho (object child)) as Hoc. rewrite Hlc in Hoc.
  destruct (objects (scene sn) !! object child) as [oc'|] eqn:Hoc'; [|tauto].
  destruct Hoc as (_ & Hmat' & _).
  destruct (Hc child oc' m b) as (_ & He & Hi & _);
    [eapply on_ship_same; eassumption | exact Hoc' | congruence | exact Hb | congruence |].
  exists b, (DynamicEnvMap.fresh (gpu sn)). rewrite frame_gpu.
  repeat split; assumption.
Qed.

Lemma ship_map_is_alive_witness :
  let sc := mkScene (Node 0 [Node 1 []]) None
              {[ 1%nat := mkObject "spaceship" false (Some 7%nat) ]}
              {[ 7%nat := mkMaterial true None 1 None 0 ]} in
  exists (b : Material) (e : nat),
    materials (scene (env_frames 3 (mkState sc DynamicEnvMap.mount))) !! 7%nat = Some b
    /\ envMap b = Some e.
Proof.
  cbv zeta.
  destruct (ship_map_is_alive
              (mkScene (Node 0 [Node 1 []]) None
                 {[ 1%nat := mkObject "spaceship" false (Some 7%nat) ]}
                 {[ 7%nat := mkMaterial true None 1 None 0 ]})
              2 (Node 1 []) (mkObject "spaceship" false (Some 7%nat)) 7
              (mkMaterial true None 1 None 0))
    as (b & e & Hb & He & _).
  - exists (Node 1 []), (mkObject "spaceship" false (Some 7%nat)).
    split; [cbn; auto|]. split; [apply lookup_singleton_eq|].
    split; [reflexivity | cbn; auto].
  - apply lookup_singleton_eq.
  - reflexivity.
  - apply lookup_singleton_eq.
  - reflexivity.
  - exists b, e. split; [exact Hb | exact He].
Defined.
